(** * beackup: periodic pg_dump backups with a retention sweep

    A shallow embedding of [main.go] (package [main] of [Alex-Loca/beackup]):
    the configuration defaults of [loadConfig], the scheduler [Start], one
    cycle [performBackup], the command builder [buildPgDumpCommand], the
    retention sweep [cleanupOldBackups], and the start-up in [setupLogger]
    and [main].  The parts of Go's standard library
    the program calls ([time], [os], [os/exec], [path/filepath], [fmt]) are
    modelled next to it, each with a note on what is kept and what is left
    out. *)

From Stdlib Require Import ZArith Lia Bool List String Ascii DecimalString.
From stdpp Require Import base option list gmap strings sorting.

Open Scope string_scope.
Open Scope list_scope.
Open Scope Z_scope.

(** ** Go's [time] package

    Instants are wall-clock readings: Unix seconds, nanoseconds and a
    location.  The monotonic-clock reading that [time.Now] attaches is left
    out: [AddDate] strips it and [ModTime] never has one, so [Before] always
    compares wall clocks in this program.  The calendar functions follow
    the implementation of Go 1.22.  [Date], [AddDate] and the functions they
    call compute in Go's [int], [int64] and [uint64] (64 bits wide), with
    the wrap-around written out at every operation.  The functions that
    read an instant ([abs], [absDate], [absClock]) count seconds from year
    1 on [Z]; Go counts them from its absolute zero year in a [uint64],
    which is the same up to a constant for every instant from that year
    on. *)
Module time.

(** Go's [int64] (and [int]) and [uint64]: the result of every operation
    is reduced modulo 2^64 into the type's range; likewise [int32] modulo
    2^32. *)
Definition int64 (z : Z) : Z := (z + 2 ^ 63) mod 2 ^ 64 - 2 ^ 63.
Definition uint64 (z : Z) : Z := z mod 2 ^ 64.
Definition int32 (z : Z) : Z := (z + 2 ^ 31) mod 2 ^ 32 - 2 ^ 31.

Definition secondsPerMinute : Z := 60.
Definition secondsPerHour : Z := 3600.
Definition secondsPerDay : Z := 86400.
Definition daysPer400Years : Z := 146097.
Definition daysPer100Years : Z := 36524.
Definition daysPer4Years : Z := 1461.

(** Seconds from January 1 of year 1 to January 1 of 1970. *)
Definition unixToInternal : Z :=
  (1969 * 365 + 1969 / 4 - 1969 / 100 + 1969 / 400) * secondsPerDay.

Definition internalToUnix : Z := - unixToInternal.

(** The year the absolute day count of [Date] starts from, and the seconds
    from it to year 1 ([(absoluteZeroYear - internalYear) * 365.2425 *
    secondsPerDay] in Go). *)
Definition absoluteZeroYear : Z := -292277022399.
Definition absoluteToInternal : Z := -9223371966579724800.

Definition alpha : Z := - 2 ^ 63.
Definition omega : Z := 2 ^ 63 - 1.

(** A location: the offset in force before the first transition, then the
    transitions [(when, offset)] in increasing order of [when] (Unix
    seconds); offsets are seconds east of UTC. *)
Record Location : Type := mkLocation {
  zone0 : Z;
  tx : list (Z * Z)
}.

Definition UTC : Location := mkLocation 0 [].
Definition FixedZone (offset : Z) : Location := mkLocation offset [].

(** [lookup] returns the offset in use at [sec] and the bounds
    [start <= sec < end] of the period it applies to.  Go finds the
    period by binary search over the sorted transitions; the scan below
    finds the same one.  The rule string by which a zone file extends
    past its last transition is left out. *)
Fixpoint lookup_tx (off start : Z) (l : list (Z * Z)) (sec : Z) : Z * Z * Z :=
  match l with
  | [] => (off, start, omega)
  | (w, o) :: rest =>
      if sec <? w then (off, start, w) else lookup_tx o w rest sec
  end.

Definition lookup (l : Location) (sec : Z) : Z * Z * Z :=
  lookup_tx (zone0 l) alpha (tx l) sec.

Definition zoneOffset (l : Location) (sec : Z) : Z :=
  fst (fst (lookup l sec)).

Record Time : Type := mkTime {
  unixSec : Z;
  nsec : Z;
  loc : Location
}.

(** Seconds since January 1 of year 1, 00:00:00, on the local clock. *)
Definition abs (t : Time) : Z :=
  unixSec t + zoneOffset (loc t) (unixSec t) + unixToInternal.

Definition isLeap (year : Z) : bool :=
  (year mod 4 =? 0) && (negb (year mod 100 =? 0) || (year mod 400 =? 0)).

(** [daysBefore[m]]: days in a non-leap year before month [m+1]. *)
Definition daysBefore (m : Z) : Z :=
  match m with
  | 0 => 0
  | 1 => 31
  | 2 => 59
  | 3 => 90
  | 4 => 120
  | 5 => 151
  | 6 => 181
  | 7 => 212
  | 8 => 243
  | 9 => 273
  | 10 => 304
  | 11 => 334
  | _ => 365
  end.

(** The year and the day within it of a day count.  Go counts days from
    an "absolute" year that is 1 modulo 400 and far enough back to keep the
    count unsigned; counting from year 1 with floor division is the same
    computation. *)
Definition absYear (d : Z) : Z * Z :=
  let n400 := d / daysPer400Years in
  let y := 400 * n400 in
  let d := d - daysPer400Years * n400 in
  let n100 := d / daysPer100Years in
  let n100 := n100 - Z.shiftr n100 2 in
  let y := y + 100 * n100 in
  let d := d - daysPer100Years * n100 in
  let n4 := d / daysPer4Years in
  let y := y + 4 * n4 in
  let d := d - daysPer4Years * n4 in
  let n := d / 365 in
  let n := n - Z.shiftr n 2 in
  let y := y + n in
  let d := d - 365 * n in
  (y + 1, d).

(** Month and day of the month from the day of the year. *)
Definition yearDay (leap : bool) (yday : Z) : Z * Z :=
  let monthDay (day : Z) :=
    let month := day / 31 in
    let end_ := daysBefore (month + 1) in
    let '(month, begin) :=
      if end_ <=? day then (month + 1, end_) else (month, daysBefore month) in
    (month + 1, day - begin + 1) in
  if leap then
    if 31 + 29 - 1 <? yday then monthDay (yday - 1)
    else if yday =? 31 + 29 - 1 then (2, 29)
    else monthDay yday
  else monthDay yday.

Definition absDate (abs : Z) : Z * Z * Z :=
  let '(year, yday) := absYear (abs / secondsPerDay) in
  let '(month, day) := yearDay (isLeap year) yday in
  (year, month, day).

Definition absClock (abs : Z) : Z * Z * Z :=
  let sec := abs mod secondsPerDay in
  let hour := sec / secondsPerHour in
  let sec := sec - hour * secondsPerHour in
  let min := sec / secondsPerMinute in
  let sec := sec - min * secondsPerMinute in
  (hour, min, sec).

Definition Date_of (t : Time) : Z * Z * Z := absDate (abs t).
Definition Clock (t : Time) : Z * Z * Z := absClock (abs t).

(** [norm hi lo base]: bring [lo] into [0 <= lo < base], carrying into
    [hi]; [÷] is Go's division, which truncates. *)
Definition norm (hi lo base : Z) : Z * Z :=
  let '(hi, lo) :=
    if lo <? 0 then
      let n := int64 (int64 (int64 (- lo) - 1) ÷ base + 1) in
      (int64 (hi - n), int64 (lo + int64 (n * base)))
    else (hi, lo) in
  if base <=? lo then
    let n := lo ÷ base in
    (int64 (hi + n), int64 (lo - int64 (n * base)))
  else (hi, lo).

(** Days from the absolute zero year to [year], in a [uint64]. *)
Definition daysSinceEpoch (year : Z) : Z :=
  let y := uint64 (int64 (year - absoluteZeroYear)) in
  let n := y / 400 in
  let y := uint64 (y - uint64 (400 * n)) in
  let d := uint64 (daysPer400Years * n) in
  let n := y / 100 in
  let y := uint64 (y - uint64 (100 * n)) in
  let d := uint64 (d + uint64 (daysPer100Years * n)) in
  let n := y / 4 in
  let y := uint64 (y - uint64 (4 * n)) in
  let d := uint64 (d + uint64 (daysPer4Years * n)) in
  let n := y in
  uint64 (d + uint64 (365 * n)).

(** [unixTime(sec, nsec)]: Go keeps the seconds since year 1 in an
    [int64]; [unixSec] is that field less [unixToInternal].  The
    nanoseconds, which [Date] hands over as an [int32], are below 10^9
    after [norm]. *)
Definition unixTime (sec ns : Z) (l : Location) : Time :=
  mkTime (int64 (sec + unixToInternal) - unixToInternal) ns l.

(** [time.Date]: the instant of a civil date and clock reading in a
    location, every field normalised first. *)
Definition Date (year month day hour min sec ns : Z) (l : Location) : Time :=
  let m := int64 (month - 1) in
  let '(year, m) := norm year m 12 in
  let month := int64 (m + 1) in
  let '(sec, ns) := norm sec ns 1000000000 in
  let '(min, sec) := norm min sec 60 in
  let '(hour, min) := norm hour min 60 in
  let '(day, hour) := norm day hour 24 in
  let d := daysSinceEpoch year in
  let d := uint64 (d + uint64 (daysBefore (month - 1))) in
  let d := if isLeap year && (3 <=? month) then uint64 (d + 1) else d in
  let d := uint64 (d + uint64 (int64 (day - 1))) in
  let abs := uint64 (d * secondsPerDay) in
  let abs :=
    uint64 (abs +
            uint64 (int64 (int64 (int64 (hour * secondsPerHour) +
                                  int64 (min * secondsPerMinute)) + sec))) in
  let unix := int64 (int64 abs + (absoluteToInternal + internalToUnix)) in
  let '(offset, start, end_) := lookup l unix in
  let unix :=
    if offset =? 0 then unix
    else
      let utc := int64 (unix - offset) in
      let offset :=
        if (utc <? start) || (end_ <=? utc)
        then fst (fst (lookup l utc)) else offset in
      int64 (unix - offset) in
  unixTime unix (int32 ns) l.

Definition AddDate (t : Time) (years months days : Z) : Time :=
  let '(year, month, day) := Date_of t in
  let '(hour, min, sec) := Clock t in
  Date (int64 (year + years)) (int64 (month + months)) (int64 (day + days))
    hour min sec (nsec t) (loc t).

Definition Before (t u : Time) : bool :=
  (unixSec t <? unixSec u) || ((unixSec t =? unixSec u) && (nsec t <? nsec u)).

(** [t.Add(d)] for a whole number of seconds. *)
Definition AddSeconds (t : Time) (s : Z) : Time :=
  mkTime (unixSec t + s) (nsec t) (loc t).

End time.

(** ** Formatting: [fmt] verbs and [time.Format] *)
Module fmt.

Definition digit (d : Z) : ascii := ascii_of_N (48 + Z.to_N d).

(** The decimal digits of a non-negative number, as [%d] prints them. *)
Definition utoa (u : Z) : string := NilZero.string_of_uint (N.to_uint (Z.to_N u)).

(** [fmt.Sprintf("%d", x)]. *)
Definition itoa (x : Z) : string :=
  if x <? 0 then "-" +:+ utoa (- x) else utoa x.

Fixpoint zeros (n : nat) : string :=
  match n with
  | O => ""
  | S n => String "0" (zeros n)
  end.

(** [appendInt] of package [time]: [x] in decimal, zero-padded to
    [width], with the table look-ups Go uses for two- and four-digit
    fields. *)
Definition appendInt (x width : Z) : string :=
  let sign := if x <? 0 then "-" else "" in
  let u := Z.abs x in
  sign +:+
  (if (width =? 2) && (u <? 100) then
     String (digit (u / 10)) (String (digit (u mod 10)) "")
   else if (width =? 4) && (u <? 10000) then
     String (digit (u / 100 / 10)) (String (digit ((u / 100) mod 10))
       (String (digit (u mod 100 / 10)) (String (digit ((u mod 100) mod 10)) "")))
   else
     let ds := utoa u in
     zeros (Z.to_nat (width - Z.of_nat (String.length ds))) +:+ ds).

End fmt.

Module timefmt.
Import time.

(** [t.Format("2006-01-02_15-04-05")]: the layout has the chunks
    [2006], [01], [02], [15], [04], [05] (long year, zero-padded month,
    day, 24-hour, minute, second); everything between them is literal. *)
Definition Format (t : Time) : string :=
  let '(year, month, day) := Date_of t in
  let '(hour, min, sec) := Clock t in
  fmt.appendInt year 4 +:+ "-" +:+ fmt.appendInt month 2 +:+ "-" +:+
  fmt.appendInt day 2 +:+ "_" +:+ fmt.appendInt hour 2 +:+ "-" +:+
  fmt.appendInt min 2 +:+ "-" +:+ fmt.appendInt sec 2.

End timefmt.

(** ** Errors and results

    A Go [error] is modelled by its message; [fmt.Errorf] with [%w] or
    [%v] splices the wrapped message in. *)
Abbreviation error := string (only parsing).

Inductive Result (A : Type) : Type :=
| Ok (a : A)
| Err (e : error).
Arguments Ok {A} a.
Arguments Err {A} e.

(** [int] is 64 bits wide on the platforms the tool targets. *)
Definition wrap_int (z : Z) : Z := (z + 2 ^ 63) mod 2 ^ 64 - 2 ^ 63.
Definition neg_int (z : Z) : Z := wrap_int (- z).

(** ** Configuration ([Config], [loadConfig]) *)

Record DatabaseConfig : Type := mkDatabase {
  Host : string;
  Port : Z;
  Name : string;
  User : string;
  Password : string
}.

Record BackupConfig : Type := mkBackup {
  OutputDir : string;
  Frequency : Z;      (* time.Duration: nanoseconds *)
  Retention : Z;
  Format : string     (* custom, plain, tar, directory *)
}.

Record LoggingConfig : Type := mkLogging {
  Level : string;
  FilePath : string
}.

Record Config : Type := mkConfig {
  Database : DatabaseConfig;
  Backup : BackupConfig;
  Logging : LoggingConfig
}.

(** The zero value [var config Config]. *)
Definition zeroConfig : Config :=
  mkConfig (mkDatabase "" 0 "" "" "") (mkBackup "" 0 0 "") (mkLogging "" "").

(** [gopkg.in/yaml.v2]: a parsed document lists the keys it sets;
    [Unmarshal] stores those into the destination and leaves every other
    field as it was. *)
Module yaml.

Record Document : Type := mkDocument {
  host : option string;
  port : option Z;
  name : option string;
  user : option string;
  password : option string;
  output_dir : option string;
  frequency : option Z;
  retention_days : option Z;
  format : option string;
  level : option string;
  file_path : option string
}.

Definition Unmarshal (d : Document) (c : Config) : Config :=
  mkConfig
    (mkDatabase (default (Host (Database c)) (host d))
                (default (Port (Database c)) (port d))
                (default (Name (Database c)) (name d))
                (default (User (Database c)) (user d))
                (default (Password (Database c)) (password d)))
    (mkBackup (default (OutputDir (Backup c)) (output_dir d))
              (default (Frequency (Backup c)) (frequency d))
              (default (Retention (Backup c)) (retention_days d))
              (default (Format (Backup c)) (format d)))
    (mkLogging (default (Level (Logging c)) (level d))
               (default (FilePath (Logging c)) (file_path d))).

End yaml.

(** What [os.ReadFile] and the YAML parser make of the file at
    [configPath]. *)
Inductive ConfigFile : Type :=
| Unreadable (e : error)
| Malformed (e : error)
| Parsed (d : yaml.Document).

(** The part of [loadConfig] under [// Set defaults]. *)
Definition setDefaults (config : Config) : Config :=
  let db := Database config in
  let bk := Backup config in
  let db := if String.eqb (Host db) "" then
              mkDatabase "localhost" (Port db) (Name db) (User db) (Password db)
            else db in
  let db := if Port db =? 0 then
              mkDatabase (Host db) 5432 (Name db) (User db) (Password db)
            else db in
  let bk := if String.eqb (Format bk) "" then
              mkBackup (OutputDir bk) (Frequency bk) (Retention bk) "custom"
            else bk in
  let bk := if Retention bk =? 0 then
              mkBackup (OutputDir bk) (Frequency bk) 7 (Format bk)
            else bk in
  mkConfig db bk (Logging config).

Definition loadConfig (file : ConfigFile) : Result Config :=
  match file with
  | Unreadable e => Err ("failed to read config file: " +:+ e)
  | Malformed e => Err ("failed to parse config: " +:+ e)
  | Parsed d => Ok (setDefaults (yaml.Unmarshal d zeroConfig))
  end.

(** [BackupTool]: the configuration; the logger field is the [EvLog] events
    of the world below, and [setupLogger], which only picks where they are
    written, is modelled apart, with [main]. *)
Record BackupTool : Type := mkBackupTool {
  config : Config
}.

Definition NewBackupTool (file : ConfigFile) : Result BackupTool :=
  match loadConfig file with
  | Err err => Err ("failed to load config: " +:+ err)
  | Ok config => Ok (mkBackupTool config)
  end.

(** ** The world outside the program

    The output directory (absent, or its immediate entries by name), the
    process environment, and the record of every call made on the outside
    world, oldest first.  A node says what [lstat] and [unlink] will answer
    for it. *)

Record Node : Type := mkNode {
  isDir : bool;
  modTime : time.Time;
  statErr : option error;      (* [Some e]: [Info] fails with [e] *)
  removeErr : option error     (* [Some e]: [os.Remove] fails with [e] *)
}.

Module exec.

Record Cmd : Type := mkCmd {
  Path : string;
  Args : list string;
  Env : list string
}.

(** [exec.Command(name, arg...)]; the search of [name] in PATH is left
    out, so [Path] is the name as given where Go has the resolved path
    once the program is found. *)
Definition Command (name : string) (arg : list string) : Cmd :=
  mkCmd name (name :: arg) [].

Definition withEnv (c : Cmd) (env : list string) : Cmd :=
  mkCmd (Path c) (Args c) env.

(** [cmd.String()]: the path, then the arguments after the first. *)
Definition String_ (c : Cmd) : string :=
  String.concat " " (Path c :: tail (Args c)).

End exec.

Inductive LogMsg : Type :=
| StartingTool
| InitialBackupFailed (err : error)
| BackupFailed (err : error)
| StartingBackup
| Running (cmd : string)
| BackupCompleted (outputPath : string)
| CleanupWarning (err : error)
| RemoveFailed (path : string) (err : error)
| Removed (path : string).

(** The line each message prints, after the logger's prefix. *)
Definition render (m : LogMsg) : string :=
  match m with
  | StartingTool => "Starting backup tool..."
  | InitialBackupFailed err => "Initial backup failed: " +:+ err
  | BackupFailed err => "Backup failed: " +:+ err
  | StartingBackup => "Starting backup..."
  | Running cmd => "Running: " +:+ cmd
  | BackupCompleted outputPath => "Backup completed successfully: " +:+ outputPath
  | CleanupWarning err => "Warning: Failed to cleanup old backups: " +:+ err
  | RemoveFailed path err => "Failed to remove old backup " +:+ path +:+ ": " +:+ err
  | Removed path => "Removed old backup: " +:+ path
  end.

Inductive Event : Type :=
| EvLog (m : LogMsg)
| EvMkdirAll (path : string) (perm : Z)
| EvRun (cmd : exec.Cmd)
| EvReadDir (path : string)
| EvLstat (path : string)
| EvRemove (path : string)
| EvNewTicker (d : Z).

Record World : Type := mkWorld {
  environ : list string;
  outdir : option (gmap string Node);
  trace : list Event
}.

Definition files (w : World) : gmap string Node := default ∅ (outdir w).

Definition emit (ev : Event) (w : World) : World :=
  mkWorld (environ w) (outdir w) (trace w ++ [ev])%list.

Definition logger_Print (m : LogMsg) (w : World) : World := emit (EvLog m) w.

Module filepath.

(** [filepath.Join] of two elements: empty elements are dropped and the
    rest joined by the separator.  The lexical cleaning Join applies to
    the result ([Clean]) is left out; it is the identity on a clean
    directory followed by an entry name. *)
Definition Join (a b : string) : string :=
  if String.eqb a "" then b
  else if String.eqb b "" then a
  else a +:+ "/" +:+ b.

End filepath.

Module os.

Record DirEntry : Type := mkDirEntry {
  Name_ : string;
  IsDir : bool
}.

Record FileInfo : Type := mkFileInfo {
  ModTime : time.Time
}.

Definition ErrNotExist : error := "no such file or directory".

(** The message of an [*fs.PathError]. *)
Definition PathError (op path : string) (err : error) : error :=
  op +:+ " " +:+ path +:+ ": " +:+ err.

(** [os.MkdirAll(path, perm)]; [fail] is the error the system answers
    with, if any. *)
Definition MkdirAll (path : string) (perm : Z) (fail : option error)
    (w : World) : World * option error :=
  let w := emit (EvMkdirAll path perm) w in
  match fail with
  | Some e => (w, Some e)
  | None =>
      (mkWorld (environ w) (Some (files w)) (trace w), None)
  end.

Definition name_le (a b : DirEntry) : Prop :=
  Is_true (String.leb (Name_ a) (Name_ b)).

#[global] Instance name_le_dec a b : Decision (name_le a b).
Proof. unfold name_le. apply _. Defined.

Definition listing (m : gmap string Node) : list DirEntry :=
  merge_sort name_le ((λ kv, mkDirEntry (fst kv) (isDir (snd kv))) <$> map_to_list m).

(** [os.ReadDir(path)]: the entries of the directory, sorted by file
    name. *)
Definition ReadDir (path : string) (fail : option error)
    (w : World) : World * Result (list DirEntry) :=
  let w := emit (EvReadDir path) w in
  match outdir w with
  | None => (w, Err (PathError "open" path ErrNotExist))
  | Some m =>
      match fail with
      | Some e => (w, Err e)
      | None =>
          (w, Ok (listing m))
      end
  end.

(** [entry.Info()]: an [lstat] of the entry at the time of the call. *)
Definition Info (dir : string) (entry : DirEntry)
    (w : World) : World * Result FileInfo :=
  let w := emit (EvLstat (filepath.Join dir (Name_ entry))) w in
  match files w !! Name_ entry with
  | None => (w, Err (PathError "lstat" (filepath.Join dir (Name_ entry)) ErrNotExist))
  | Some node =>
      match statErr node with
      | Some e => (w, Err e)
      | None => (w, Ok (mkFileInfo (modTime node)))
      end
  end.

(** [os.Remove(filepath.Join(dir, name))]: unlink entry [name] of the
    directory. *)
Definition Remove (dir name : string) (w : World) : World * option error :=
  let w := emit (EvRemove (filepath.Join dir name)) w in
  match files w !! name with
  | None => (w, Some (PathError "remove" (filepath.Join dir name) ErrNotExist))
  | Some node =>
      match removeErr node with
      | Some e => (w, Some e)
      | None =>
          (mkWorld (environ w) (delete name <$> outdir w) (trace w), None)
      end
  end.

End os.

(** What one run of the external tool does: its exit error, if any, the
    combined output it printed, and the node it left at the target, if
    any. *)
Record ExecResult : Type := mkExecResult {
  exitErr : option error;
  output : string;
  artifact : option Node
}.

(** [cmd.CombinedOutput()] for a command whose target is entry [target]
    of the output directory: the node the tool leaves, if any, is put
    under that name.  The program passes the file name it made for the
    cycle, which is the entry written when that name holds no path
    separator; the statements that follow an artifact in the directory
    assume so. *)
Definition CombinedOutput (cmd : exec.Cmd) (target : string) (r : ExecResult)
    (w : World) : World * (string * option error) :=
  let w := emit (EvRun cmd) w in
  let w :=
    match artifact r with
    | Some node => mkWorld (environ w) (insert target node <$> outdir w) (trace w)
    | None => w
    end in
  (w, (output r, exitErr r)).

(** ** The program *)

(** What the outside world answers during one cycle: the clock when the
    file name is made, the run of the dump tool, the answer to listing the
    directory, and the clock when the cutoff is computed. *)
Record CycleInput : Type := mkCycleInput {
  nowName : time.Time;
  execRes : ExecResult;
  readDirErr : option error;
  nowSweep : time.Time
}.

(** The [switch] on the format in [performBackup]. *)
Definition extension (format : string) : string :=
  if String.eqb format "plain" then ".sql"
  else if String.eqb format "tar" then ".tar"
  else if String.eqb format "directory" then ""
  else ".dump".

(** The [switch] on the format in [buildPgDumpCommand]. *)
Definition formatFlag (format : string) : string :=
  if String.eqb format "plain" then "--format=plain"
  else if String.eqb format "tar" then "--format=tar"
  else if String.eqb format "directory" then "--format=directory"
  else "--format=custom".

Definition filename (bt : BackupTool) (now : time.Time) : string :=
  let timestamp := timefmt.Format now in
  Name (Database (config bt)) +:+ "_" +:+ timestamp +:+
  extension (Format (Backup (config bt))).

Definition buildPgDumpCommand (bt : BackupTool) (outputPath : string) : exec.Cmd :=
  let db := Database (config bt) in
  let args :=
    [ "pg_dump";
      "-h"; Host db;
      "-p"; fmt.itoa (Port db);
      "-U"; User db;
      "-d"; Name db;
      "--verbose";
      "--no-password" ] in
  let args := (args ++ [formatFlag (Format (Backup (config bt)))])%list in
  let args :=
    if String.eqb (Format (Backup (config bt))) "directory"
    then (args ++ ["--file"; outputPath])%list
    else (args ++ ["--file"; outputPath])%list in
  exec.Command (hd "" args) (tail args).

(** The loop body of [cleanupOldBackups], over the entries still to
    visit. *)
Fixpoint sweep (bt : BackupTool) (cutoff : time.Time) (entries : list os.DirEntry)
    (w : World) : World :=
  match entries with
  | [] => w
  | entry :: rest =>
      if os.IsDir entry then sweep bt cutoff rest w
      else
        let '(w, info) := os.Info (OutputDir (Backup (config bt))) entry w in
        match info with
        | Err _ => sweep bt cutoff rest w
        | Ok info =>
            if time.Before (os.ModTime info) cutoff then
              let path := filepath.Join (OutputDir (Backup (config bt))) (os.Name_ entry) in
              let '(w, err) := os.Remove (OutputDir (Backup (config bt))) (os.Name_ entry) w in
              let w :=
                match err with
                | Some err => logger_Print (RemoveFailed path err) w
                | None => logger_Print (Removed path) w
                end in
              sweep bt cutoff rest w
            else sweep bt cutoff rest w
        end
  end.

Definition cleanupOldBackups (bt : BackupTool) (now : time.Time)
    (fail : option error) (w : World) : World * option error :=
  let '(w, entries) := os.ReadDir (OutputDir (Backup (config bt))) fail w in
  match entries with
  | Err err => (w, Some ("failed to read backup directory: " +:+ err))
  | Ok entries =>
      let cutoff := time.AddDate now 0 0 (neg_int (Retention (Backup (config bt)))) in
      (sweep bt cutoff entries w, None)
  end.

Definition performBackup (bt : BackupTool) (inp : CycleInput)
    (w : World) : World * option error :=
  let w := logger_Print StartingBackup w in
  let name := filename bt (nowName inp) in
  let outputPath := filepath.Join (OutputDir (Backup (config bt))) name in
  let cmd := buildPgDumpCommand bt outputPath in
  let cmd := exec.withEnv cmd
               (environ w ++ ["PGPASSWORD=" +:+ Password (Database (config bt))])%list in
  let w := logger_Print (Running (exec.String_ cmd)) w in
  let '(w, (out, err)) := CombinedOutput cmd name (execRes inp) w in
  match err with
  | Some err => (w, Some ("pg_dump failed: " +:+ err +:+ ", output: " +:+ out))
  | None =>
      let w := logger_Print (BackupCompleted outputPath) w in
      let '(w, err) := cleanupOldBackups bt (nowSweep inp) (readDirErr inp) w in
      let w :=
        match err with
        | Some err => logger_Print (CleanupWarning err) w
        | None => w
        end in
      (w, None)
  end.

(** How a call of [Start] stands once the ticks delivered so far have been
    served: it has returned, it has panicked, or it waits on the ticker's
    channel. *)
Inductive Outcome : Type :=
| Returned (err : option error)
| Panicked (msg : string)
| Waiting.

(** The [for range ticker.C] loop over the ticks delivered so far. *)
Fixpoint tickLoop (bt : BackupTool) (ticks : list CycleInput) (w : World) : World :=
  match ticks with
  | [] => w
  | inp :: rest =>
      let '(w, err) := performBackup bt inp w in
      let w :=
        match err with
        | Some err => logger_Print (BackupFailed err) w
        | None => w
        end in
      tickLoop bt rest w
  end.

(** [Start]: [mkdirFail] is the answer to [MkdirAll], [first] feeds the
    initial backup and [ticks] one cycle per tick delivered. *)
Definition Start (bt : BackupTool) (mkdirFail : option error)
    (first : CycleInput) (ticks : list CycleInput) (w : World) : World * Outcome :=
  let w := logger_Print StartingTool w in
  let '(w, err) := os.MkdirAll (OutputDir (Backup (config bt))) 493 mkdirFail w in
  match err with
  | Some err => (w, Returned (Some ("failed to create output directory: " +:+ err)))
  | None =>
      let '(w, err) := performBackup bt first w in
      let w :=
        match err with
        | Some err => logger_Print (InitialBackupFailed err) w
        | None => w
        end in
      (* time.NewTicker panics on a non-positive duration *)
      if Frequency (Backup (config bt)) <=? 0 then
        (w, Panicked "non-positive interval for NewTicker")
      else
        let w := emit (EvNewTicker (Frequency (Backup (config bt)))) w in
        (tickLoop bt ticks w, Waiting)
  end.

(** ** Start-up ([setupLogger], [main])

    What start-up does outside the output directory: the lines written to
    standard output and standard error, the log file it tries to open, and
    how the process ends. *)

Inductive Output : Type :=
| Stdout
| LogFile (path : string).

Record Logger : Type := mkLogger {
  out : Output;
  prefix : string;
  flag : Z
}.

(** The flags of [os.OpenFile] (Linux values) and of package [log]. *)
Definition O_WRONLY : Z := 1.
Definition O_CREATE : Z := 64.
Definition O_TRUNC : Z := 512.
Definition O_APPEND : Z := 1024.
Definition LstdFlags : Z := 3.
Definition Lshortfile : Z := 16.

(** A call of [os.OpenFile]. *)
Record OpenCall : Type := mkOpenCall {
  openPath : string;
  openFlag : Z;
  openPerm : Z
}.

(** [setupLogger]: [openFail] is the answer to [os.OpenFile], if it is
    called.  Returns the logger, the calls of [os.OpenFile] made and the
    lines printed through the default logger (standard error). *)
Definition setupLogger (config : Config) (openFail : option error) :
    Logger * list OpenCall * list string :=
  let '(output, opened, notices) :=
    if negb (String.eqb (FilePath (Logging config)) "") then
      let call := mkOpenCall (FilePath (Logging config))
                    (Z.lor (Z.lor O_CREATE O_WRONLY) O_APPEND) 438 in
      match openFail with
      | Some err =>
          (Stdout, [call], ["Failed to open log file, using stdout: " +:+ err])
      | None => (LogFile (FilePath (Logging config)), [call], [])
      end
    else (Stdout, [], []) in
  (mkLogger output "[BACKUP] " (Z.lor LstdFlags Lshortfile), opened, notices).

(** How the process stands: it has exited with a status, it has died of a
    panic, or it is still running (inside [Start]'s loop). *)
Inductive Exit : Type :=
| ExitCode (code : Z)
| Panic (msg : string)
| Running_.

Record Process : Type := mkProcess {
  p_stdout : list string;
  p_stderr : list string;
  p_opened : list OpenCall;
  p_logger : option Logger;
  p_world : World;
  p_exit : Exit
}.

(** [main]: [args] is [os.Args], [readConfig] what reading and parsing the
    file at a path gives; the other inputs are those of [setupLogger] and
    [Start].  [setupLogger], which [NewBackupTool] calls once the
    configuration is loaded, is called here.  The value [Start] returns is
    dropped, as in the source, and [main] then returns: exit status 0. *)
Definition main (args : list string) (readConfig : string → ConfigFile)
    (openFail mkdirFail : option error) (first : CycleInput)
    (ticks : list CycleInput) (w : World) : Process :=
  if (length args <? 2)%nat then
    mkProcess ["Usage: beackup <config-file>"] [] [] None w (ExitCode 1)
  else
    let configPath := nth 1 args "" in
    match NewBackupTool (readConfig configPath) with
    | Err err =>
        mkProcess [] ["Failed to create backup tool: " +:+ err] [] None w (ExitCode 1)
    | Ok tool =>
        let '(logger, opened, notices) := setupLogger (config tool) openFail in
        let '(w, outcome) := Start tool mkdirFail first ticks w in
        mkProcess [] notices opened (Some logger) w
          match outcome with
          | Returned _ => ExitCode 0
          | Panicked msg => Panic msg
          | Waiting => Running_
          end
    end.

(** * Notions used in the statements *)

(** The events recorded between two states of the world. *)
Definition since (w w' : World) : list Event :=
  drop (length (trace w)) (trace w').

(** What visiting [entry] records, when the directory holds [m]. *)
Definition entryEvents (bt : BackupTool) (cutoff : time.Time)
    (m : gmap string Node) (entry : os.DirEntry) : list Event :=
  if os.IsDir entry then []
  else
    let path := filepath.Join (OutputDir (Backup (config bt))) (os.Name_ entry) in
    EvLstat path ::
    match m !! os.Name_ entry with
    | None => []
    | Some node =>
        match statErr node with
        | Some _ => []
        | None =>
            if time.Before (modTime node) cutoff then
              [ EvRemove path;
                EvLog (match removeErr node with
                       | Some err => RemoveFailed path err
                       | None => Removed path
                       end) ]
            else []
        end
    end.

(** Whether visiting [entry] unlinks it. *)
Definition unlinked (cutoff : time.Time) (m : gmap string Node)
    (entry : os.DirEntry) : bool :=
  negb (os.IsDir entry) &&
  match m !! os.Name_ entry with
  | None => false
  | Some node =>
      match statErr node, removeErr node with
      | None, None => time.Before (modTime node) cutoff
      | _, _ => false
      end
  end.

(** The directory after visiting [entry], judged by the node [m0] holds
    for it. *)
Definition visit (cutoff : time.Time) (m0 m : gmap string Node)
    (entry : os.DirEntry) : gmap string Node :=
  if unlinked cutoff m0 entry then delete (os.Name_ entry) m else m.

(** ** Calendar notions used in the statements *)
Module calendar.
Import time.

(** A year number split along the 400-, 100-, 4- and 1-year cycles. *)
Definition cycles (a b c e : Z) : Z := 400 * a + 100 * b + 4 * c + e + 1.

(** The day of the year of a month and day, as [Date] adds it up. *)
Definition dayOfYear (leap : bool) (month day : Z) : Z :=
  daysBefore (month - 1) + (if leap && (3 <=? month) then 1 else 0) + (day - 1).

(** [yearDay] gives a month and a day in range that add up to the day of
    the year again. *)
Definition yearDay_ok (leap : bool) (yd : Z) : bool :=
  let '(month, day) := yearDay leap yd in
  (1 <=? month) && (month <=? 12) && (1 <=? day) && (day <=? 31) &&
  (dayOfYear leap month day =? yd).

(** Days from year 1 to [year], exact on [Z]. *)
Definition daysBeforeYear (year : Z) : Z :=
  let y := year - 1 in
  let n := y / 400 in
  let y := y - 400 * n in
  let d := daysPer400Years * n in
  let n := y / 100 in
  let y := y - 100 * n in
  let d := d + daysPer100Years * n in
  let n := y / 4 in
  let y := y - 4 * n in
  let d := d + daysPer4Years * n in
  d + 365 * y.

(** Well-formed instants carry their nanoseconds below one second. *)
Definition wf (t : Time) : Prop := 0 <= nsec t < 1000000000.

(** Second counts that Go holds in every form it uses for an instant: as
    Unix seconds, as seconds since year 1 and as seconds since the absolute
    zero year, each in 64 bits. *)
Definition inRange (z : Z) : Prop := - 2 ^ 63 + 2 ^ 37 <= z <= 2 ^ 63 - 2 ^ 37.

(** The instant [days] periods of 24 hours after [t] is in range, on the
    UTC clock and on the local clock of [t]; for [days = 0], [t] itself
    is. *)
Definition reach (t : Time) (days : Z) : Prop :=
  inRange (unixSec t + 86400 * days) ∧
  inRange (unixSec t + zoneOffset (loc t) (unixSec t) + 86400 * days).

(** The offsets a location ever uses. *)
Definition offsets (l : Location) : list Z := zone0 l :: (tx l).*2.

(** A location whose offsets all lie within less than 24 hours of each
    other: fixed offsets, daylight saving time, most changes of standard
    time; not a jump across the date line. *)
Definition narrow (l : Location) : Prop :=
  ∀ o1 o2, o1 ∈ offsets l → o2 ∈ offsets l → o1 - o2 < 86400.

(** Month and day as one number: months first. *)
Definition monthDayKey (leap : bool) (yd : Z) : Z :=
  let '(month, day) := yearDay leap yd in month * 100 + day.

(** The next day of the year has a larger key. *)
Definition monthDay_step (leap : bool) (yd : Z) : bool :=
  monthDayKey leap yd <? monthDayKey leap (yd + 1).

(** The civil reading of a local second count as one number, most
    significant field first. *)
Definition civilKey (a : Z) : Z :=
  let '(year, month, day) := absDate a in
  let '(hour, min, sec) := absClock a in
  ((((year * 100 + month) * 100 + day) * 100 + hour) * 100 + min) * 100 + sec.

End calendar.

(** Comparison of pairs: the first component decides unless it is equal. *)
Definition lex (c1 c2 : comparison) : comparison :=
  match c1 with Eq => c2 | Lt => Lt | Gt => Gt end.

(** New York around the end of daylight saving time in 2024: UTC-5, UTC-4
    from 2024-03-10 07:00 UTC, UTC-5 again from 2024-11-03 06:00 UTC. *)
Definition New_York : time.Location :=
  time.mkLocation (-18000) [(1710054000, -14400); (1730613600, -18000)].

(** The cutoff [cleanupOldBackups] computes at [now]. *)
Definition cutoffOf (bt : BackupTool) (now : time.Time) : time.Time :=
  time.AddDate now 0 0 (neg_int (Retention (Backup (config bt)))).

(** The path of entry [name] of the output directory. *)
Definition pathOf (bt : BackupTool) (name : string) : string :=
  filepath.Join (OutputDir (Backup (config bt))) name.

(** [t] lies exactly [k] periods of 24 hours before [now]. *)
Definition daysAgo (now : time.Time) (k : Z) (t : time.Time) : Prop :=
  time.unixSec t = time.unixSec now - k * 86400 /\ time.nsec t = time.nsec now.

(** The command a cycle runs: the one [buildPgDumpCommand] makes for the
    cycle's file, with [PGPASSWORD] appended to the process environment. *)
Definition dumpCommand (bt : BackupTool) (now : time.Time) (env : list string) : exec.Cmd :=
  exec.withEnv (buildPgDumpCommand bt (pathOf bt (filename bt now)))
    (env ++ ["PGPASSWORD=" +:+ Password (Database (config bt))])%list.

(** Events only the sweep's loop records. *)
Definition sweepEvent (ev : Event) : bool :=
  match ev with
  | EvLstat _ | EvRemove _ => true
  | EvLog (Removed _) | EvLog (RemoveFailed _ _) => true
  | _ => false
  end.

(** The events of a cycle up to the end of the dump. *)
Definition dumpEvents (bt : BackupTool) (inp : CycleInput) (env : list string) : list Event :=
  [ EvLog StartingBackup;
    EvLog (Running (exec.String_ (dumpCommand bt (nowName inp) env)));
    EvRun (dumpCommand bt (nowName inp) env) ].

(** The error [performBackup] returns when the dump exits with [e]. *)
Definition dumpError (inp : CycleInput) (e : error) : error :=
  "pg_dump failed: " +:+ e +:+ ", output: " +:+ output (execRes inp).

(** The tool with its password replaced. *)
Definition withPassword (pw : string) (bt : BackupTool) : BackupTool :=
  let c := config bt in
  let db := Database c in
  mkBackupTool
    (mkConfig (mkDatabase (Host db) (Port db) (Name db) (User db) pw)
              (Backup c) (Logging c)).

(** The document with its [retention_days] key set ([Some]) or left out
    ([None]); likewise its [port] key. *)
Definition withRetentionDays (v : option Z) (d : yaml.Document) : yaml.Document :=
  yaml.mkDocument (yaml.host d) (yaml.port d) (yaml.name d) (yaml.user d)
    (yaml.password d) (yaml.output_dir d) (yaml.frequency d) v (yaml.format d)
    (yaml.level d) (yaml.file_path d).

Definition withPort (v : option Z) (d : yaml.Document) : yaml.Document :=
  yaml.mkDocument (yaml.host d) v (yaml.name d) (yaml.user d)
    (yaml.password d) (yaml.output_dir d) (yaml.frequency d) (yaml.retention_days d)
    (yaml.format d) (yaml.level d) (yaml.file_path d).

(** The events of one cycle as [Start] drives it: the dump; then, when the
    dump failed, the line [Start] logs for it ([failed] makes the message),
    and when it succeeded, the completion line and the sweep. *)
Definition cycleOf (bt : BackupTool) (failed : error → LogMsg) (env : list string)
    (inp : CycleInput) (evs : list Event) : Prop :=
  match exitErr (execRes inp) with
  | Some e => evs = dumpEvents bt inp env ++ [EvLog (failed (dumpError inp e))]
  | None =>
      ∃ sw warn,
        evs = dumpEvents bt inp env ++
              EvLog (BackupCompleted (pathOf bt (filename bt (nowName inp)))) ::
              EvReadDir (OutputDir (Backup (config bt))) :: sw ++ warn ∧
        forallb sweepEvent sw = true ∧
        (warn = [] ∨ ∃ e, warn = [EvLog (CleanupWarning e)])
  end.

(** A cycle followed by the logging of its failure. *)
Definition cycleStep (bt : BackupTool) (failed : error → LogMsg) (inp : CycleInput)
    (w : World) : World :=
  match (performBackup bt inp w).2 with
  | Some err => logger_Print (failed err) (performBackup bt inp w).1
  | None => (performBackup bt inp w).1
  end.

(** The world once [Start] has made sure of the output directory. *)
Definition started (bt : BackupTool) (w : World) : World :=
  (os.MkdirAll (OutputDir (Backup (config bt))) 493 None
     (logger_Print StartingTool w)).1.

(** The local year of an instant. *)
Definition Year (t : time.Time) : Z := (time.Date_of t).1.1.

(** ** A worked scenario

    A tool configured from a document that leaves host, port, format and
    retention to their defaults, running at 2024-11-07 17:20:00 UTC over a
    directory with entries of several ages. *)
Module scenario.

Definition document : yaml.Document :=
  yaml.mkDocument None None (Some "shop") (Some "pg") (Some "s3cret")
    (Some "/var/backups") (Some 3600000000000) None None None None.

Definition bt : BackupTool :=
  match NewBackupTool (Parsed document) with
  | Ok tool => tool
  | Err _ => mkBackupTool zeroConfig
  end.

Definition now : time.Time := time.mkTime 1731000000 0 time.UTC.

Definition aged (days : Z) (dir : bool) (rmErr : option error) : Node :=
  mkNode dir (time.AddSeconds now (- (days * 86400))) None rmErr.

Definition directory : gmap string Node :=
  <["archive" := aged 80 true None]>
  (<["locked.dump" := aged 30 false (Some "permission denied")]>
  (<["shop_8.dump" := aged 8 false None]>
  (<["shop_7.dump" := aged 7 false None]>
  (<["shop_6.dump" := aged 6 false None]> ∅)))).

Definition world : World := mkWorld ["PATH=/usr/bin"] (Some directory) [].

Definition dumpOk : ExecResult :=
  mkExecResult None "pg_dump: done" (Some (mkNode false now None None)).

Definition dumpFails : ExecResult :=
  mkExecResult (Some "exit status 1") "pg_dump: connection refused" None.

Definition goodCycle : CycleInput := mkCycleInput now dumpOk None now.
Definition badCycle : CycleInput := mkCycleInput now dumpFails None now.

End scenario.

(** A tool loaded from a document that omits the frequency. *)
Definition unscheduled : BackupTool :=
  match NewBackupTool (Parsed (yaml.mkDocument None None (Some "shop") (Some "pg")
                                 (Some "s3cret") (Some "/var/backups") None None
                                 None None None)) with
  | Ok tool => tool
  | Err _ => mkBackupTool zeroConfig
  end.

(** ** Further notions used in the statements *)

(** The world when the dump tool has run: the cycle's first two log lines,
    the run, and the node the tool left at the target, if any. *)
Definition ran (bt : BackupTool) (inp : CycleInput) (w : World) : World :=
  (CombinedOutput (dumpCommand bt (nowName inp) (environ w))
     (filename bt (nowName inp)) (execRes inp)
     (logger_Print (Running (exec.String_ (dumpCommand bt (nowName inp) (environ w))))
        (logger_Print StartingBackup w))).1.


(** An old entry whose [Info] fails, and the scenario's directory with it. *)
Definition stale : Node :=
  mkNode false (time.mkTime 0 0 time.UTC) (Some "stale file handle") None.

Definition staleWorld : World :=
  mkWorld [] (Some (<["gone.dump" := stale]> scenario.directory)) [].


(** A tool loaded with the largest retention an [int] holds. *)
Definition hoarder : BackupTool :=
  match NewBackupTool (Parsed (withRetentionDays (Some (2 ^ 63 - 1))
                                 scenario.document)) with
  | Ok tool => tool
  | Err _ => mkBackupTool zeroConfig
  end.

(** An event without the environment handed to a child process. *)
Definition scrub (ev : Event) : Event :=
  match ev with
  | EvRun cmd => EvRun (exec.withEnv cmd [])
  | _ => ev
  end.

(** Two worlds that differ at most in the environments handed to child
    processes. *)
Definition agree (w1 w2 : World) : Prop :=
  environ w1 = environ w2 ∧ outdir w1 = outdir w2 ∧
  scrub <$> trace w1 = scrub <$> trace w2.


(** The document with its [level] key set ([Some]) or left out ([None]). *)
Definition withLevel (v : option string) (d : yaml.Document) : yaml.Document :=
  yaml.mkDocument (yaml.host d) (yaml.port d) (yaml.name d) (yaml.user d)
    (yaml.password d) (yaml.output_dir d) (yaml.frequency d) (yaml.retention_days d)
    (yaml.format d) v (yaml.file_path d).

(** A configuration file whose [level] key is changed, if it parses. *)
Definition relevel (v : option string) (f : ConfigFile) : ConfigFile :=
  match f with
  | Parsed d => Parsed (withLevel v d)
  | _ => f
  end.

(** The tool with its retention replaced. *)
Definition withRetention (r : Z) (bt : BackupTool) : BackupTool :=
  let c := config bt in
  let bk := Backup c in
  mkBackupTool
    (mkConfig (Database c)
              (mkBackup (OutputDir bk) (Frequency bk) r (Format bk))
              (Logging c)).


(** Remove the reductions to 64 bits whose argument is in range, innermost
    first. *)
Ltac in_range :=
  repeat match goal with
         | |- context [time.uint64 ?x] =>
             lazymatch x with
             | context [time.uint64 _] => fail
             | context [time.int64 _] => fail
             | _ =>
                 replace (time.uint64 x) with x
                   by (unfold time.uint64; rewrite Z.mod_small by lia; reflexivity)
             end
         | |- context [time.int64 ?x] =>
             lazymatch x with
             | context [time.uint64 _] => fail
             | context [time.int64 _] => fail
             | _ =>
                 replace (time.int64 x) with x
                   by (unfold time.int64; rewrite Z.mod_small by lia; lia)
             end
         end.

(** Case analysis on every string and integer test in the goal. *)
Ltac eqb_cases :=
  repeat match goal with
         | |- context [String.eqb ?a ?b] => destruct (String.eqb_spec a b); cbn in *
         | |- context [Z.eqb ?a ?b] => destruct (Z.eqb_spec a b); cbn in *
         end.

(** * Properties *)

(** ** Strings *)
Module str.

Lemma length_app (s1 s2 : string) :
  String.length (s1 +:+ s2) = (String.length s1 + String.length s2)%nat.
Proof.
  induction s1 as [|a s1 IH]; [done|].
  change (String a s1 +:+ s2) with (String a (s1 +:+ s2)). cbn. by rewrite IH.
Qed.

Lemma app_assoc (s1 s2 s3 : string) : (s1 +:+ s2) +:+ s3 = s1 +:+ (s2 +:+ s3).
Proof.
  induction s1 as [|a s1 IH]; [done|].
  change ((String a s1 +:+ s2) +:+ s3) with (String a ((s1 +:+ s2) +:+ s3)).
  by rewrite IH.
Qed.

End str.

(** ** The model at work *)

Example scenario_config :
  config scenario.bt =
  mkConfig (mkDatabase "localhost" 5432 "shop" "pg" "s3cret")
           (mkBackup "/var/backups" 3600000000000 7 "custom")
           (mkLogging "" "").
Proof. reflexivity. Qed.

Example scenario_filename :
  filename scenario.bt scenario.now = "shop_2024-11-07_17-20-00.dump".
Proof. reflexivity. Qed.

Example scenario_command :
  exec.String_ (buildPgDumpCommand scenario.bt
                  (pathOf scenario.bt (filename scenario.bt scenario.now))) =
  "pg_dump -h localhost -p 5432 -U pg -d shop --verbose --no-password --format=custom --file /var/backups/shop_2024-11-07_17-20-00.dump".
Proof. reflexivity. Qed.

Example scenario_listing :
  os.Name_ <$> os.listing scenario.directory =
  ["archive"; "locked.dump"; "shop_6.dump"; "shop_7.dump"; "shop_8.dump"].
Proof. reflexivity. Qed.

Example scenario_sweep :
  since scenario.world
    (cleanupOldBackups scenario.bt scenario.now None scenario.world).1 =
  [ EvReadDir "/var/backups";
    EvLstat "/var/backups/locked.dump"; EvRemove "/var/backups/locked.dump";
    EvLog (RemoveFailed "/var/backups/locked.dump" "permission denied");
    EvLstat "/var/backups/shop_6.dump";
    EvLstat "/var/backups/shop_7.dump";
    EvLstat "/var/backups/shop_8.dump"; EvRemove "/var/backups/shop_8.dump";
    EvLog (Removed "/var/backups/shop_8.dump") ] ∧
  os.Name_ <$>
    os.listing
      (files (cleanupOldBackups scenario.bt scenario.now None scenario.world).1)
  = ["archive"; "locked.dump"; "shop_6.dump"; "shop_7.dump"].
Proof. split; reflexivity. Qed.

Example New_York_narrow : calendar.narrow New_York.
Proof.
  intros o1 o2 H1 H2. unfold calendar.offsets in *. cbn in H1, H2.
  repeat (apply elem_of_cons in H1 as [->|H1]); [..|by apply elem_of_nil in H1];
    repeat (apply elem_of_cons in H2 as [->|H2]);
    try (by apply elem_of_nil in H2); lia.
Qed.

Example seven_days_across_fall_back :
  time.AddDate (time.mkTime 1731000000 0 New_York) 0 0 (-7) =
  time.mkTime (1731000000 - 7 * 86400 - 3600) 0 New_York.
Proof. reflexivity. Qed.

(** ** The sweep, entry by entry *)
Section Sweep.

Variable bt : BackupTool.
Variable cutoff : time.Time.

Lemma entryEvents_ext m m' entry :
  m !! os.Name_ entry = m' !! os.Name_ entry →
  entryEvents bt cutoff m entry = entryEvents bt cutoff m' entry.
Proof. unfold entryEvents. by intros ->. Qed.

Lemma unlinked_ext m m' entry :
  m !! os.Name_ entry = m' !! os.Name_ entry →
  unlinked cutoff m entry = unlinked cutoff m' entry.
Proof. unfold unlinked. by intros ->. Qed.

Lemma foldl_visit_ext entries : ∀ m0 m0' m,
  (∀ e, e ∈ entries → m0 !! os.Name_ e = m0' !! os.Name_ e) →
  foldl (visit cutoff m0) m entries = foldl (visit cutoff m0') m entries.
Proof.
  induction entries as [|e es IH]; intros m0 m0' m H; [done|].
  simpl. unfold visit at 2 4.
  rewrite (unlinked_ext m0 m0' e) by (apply H; left).
  apply IH. intros e' He'. apply H. by right.
Qed.

Lemma flat_map_entryEvents_ext entries m m' :
  (∀ e, e ∈ entries → m !! os.Name_ e = m' !! os.Name_ e) →
  flat_map (entryEvents bt cutoff m) entries = flat_map (entryEvents bt cutoff m') entries.
Proof.
  induction entries as [|e es IH]; intros H; [done|].
  simpl. rewrite (entryEvents_ext m m' e) by (apply H; left).
  f_equal. apply IH. intros e' He'. apply H. by right.
Qed.

(** The loop, in closed form: on a listing without repeated names, each
    entry is judged by the node the directory held when the loop
    began. *)
Lemma sweep_spec entries : ∀ env m tr,
  NoDup (os.Name_ <$> entries) →
  sweep bt cutoff entries (mkWorld env (Some m) tr) =
  mkWorld env (Some (foldl (visit cutoff m) m entries))
          (tr ++ flat_map (entryEvents bt cutoff m) entries).
Proof.
  induction entries as [|e es IH]; intros env m tr Hnd.
  { simpl. by rewrite app_nil_r. }
  rewrite fmap_cons in Hnd. apply NoDup_cons in Hnd as [Hne Hnd].
  assert (Hrest : ∀ m' : gmap string Node, (∀ n, n ≠ os.Name_ e → m' !! n = m !! n) →
            ∀ e', e' ∈ es → m' !! os.Name_ e' = m !! os.Name_ e').
  { intros m' Hm' e' He'. apply Hm'. intros Heq. apply Hne.
    rewrite <- Heq. by apply list_elem_of_fmap_2. }
  cbn [sweep foldl flat_map]. unfold visit at 2, entryEvents at 1, unlinked at 1.
  destruct (os.IsDir e) eqn:Hd; cbn [negb andb].
  { by rewrite IH. }
  unfold os.Info, os.Remove, logger_Print, emit, files. cbn.
  destruct (m !! os.Name_ e) as [node|] eqn:Hm; cbn.
  2:{ rewrite IH by done. by rewrite <- app_assoc. }
  destruct (statErr node) as [serr|] eqn:Hs; cbn.
  { rewrite IH by done. by rewrite <- app_assoc. }
  destruct (time.Before (modTime node) cutoff) eqn:Hb; cbn.
  2:{ destruct (removeErr node); rewrite IH by done; by rewrite <- app_assoc. }
  rewrite Hm. cbn.
  destruct (removeErr node) as [rerr|] eqn:Hr; cbn.
  { rewrite IH by done. rewrite <- !app_assoc. done. }
  rewrite IH by done. rewrite <- !app_assoc. cbn. f_equal.
  - f_equal. apply foldl_visit_ext. apply Hrest.
    intros n Hn. by rewrite lookup_delete_ne.
  - do 4 f_equal. apply flat_map_entryEvents_ext. apply Hrest.
    intros n Hn. by rewrite lookup_delete_ne.
Qed.

Lemma foldl_visit_None m0 entries : ∀ m n,
  m !! n = None → foldl (visit cutoff m0) m entries !! n = None.
Proof.
  induction entries as [|e es IH]; intros m n Hn; [done|].
  simpl. apply IH. unfold visit. destruct (unlinked cutoff m0 e); [|done].
  rewrite lookup_delete. by case_decide.
Qed.

Lemma foldl_visit_unlinked m0 entries : ∀ m e,
  e ∈ entries → unlinked cutoff m0 e = true →
  foldl (visit cutoff m0) m entries !! os.Name_ e = None.
Proof.
  induction entries as [|e' es IH]; intros m e He Hu.
  { by apply elem_of_nil in He. }
  apply elem_of_cons in He as [->|He]; [|by apply IH].
  simpl. apply foldl_visit_None. unfold visit. rewrite Hu.
  apply lookup_delete_eq.
Qed.

Lemma foldl_visit_kept m0 entries : ∀ m n,
  (∀ e, e ∈ entries → os.Name_ e = n → unlinked cutoff m0 e = false) →
  foldl (visit cutoff m0) m entries !! n = m !! n.
Proof.
  induction entries as [|e es IH]; intros m n H; [done|].
  simpl. rewrite IH by (intros e' He'; apply H; by right).
  unfold visit. destruct (unlinked cutoff m0 e) eqn:Hu; [|done].
  apply lookup_delete_ne. intros Heq.
  rewrite (H e) in Hu; [done|by left|done].
Qed.

Lemma elem_of_flat_map {A B} (f : A → list B) (l : list A) (y : B) :
  y ∈ flat_map f l ↔ ∃ x, x ∈ l ∧ y ∈ f x.
Proof.
  rewrite list_elem_of_In, in_flat_map.
  split; intros (x & Hx & Hy); exists x; split; by apply list_elem_of_In.
Qed.

Lemma listing_NoDup m : NoDup (os.Name_ <$> os.listing m).
Proof.
  unfold os.listing. rewrite merge_sort_Permutation.
  rewrite <- list_fmap_compose.
  apply (NoDup_fst_map_to_list m).
Qed.

Lemma elem_of_listing m e :
  e ∈ os.listing m ↔
  ∃ node, m !! os.Name_ e = Some node ∧ os.IsDir e = isDir node.
Proof.
  unfold os.listing. rewrite merge_sort_Permutation, list_elem_of_fmap. split.
  - intros ([n node] & -> & H). apply elem_of_map_to_list in H. by exists node.
  - intros (node & H & Hd). exists (os.Name_ e, node). split.
    + destruct e. simpl in *. by rewrite Hd.
    + by apply elem_of_map_to_list.
Qed.

(** A successful listing followed by the loop, in closed form. *)
Lemma cleanup_spec now w m :
  outdir w = Some m →
  cutoff = time.AddDate now 0 0 (neg_int (Retention (Backup (config bt)))) →
  cleanupOldBackups bt now None w =
  (mkWorld (environ w) (Some (foldl (visit cutoff m) m (os.listing m)))
     (trace w ++ EvReadDir (OutputDir (Backup (config bt))) :: flat_map (entryEvents bt cutoff m) (os.listing m)),
   None).
Proof.
  intros Hm Hc. unfold cleanupOldBackups, os.ReadDir, emit. cbn [outdir].
  rewrite Hm, <- Hc. cbn [environ trace].
  rewrite sweep_spec by apply listing_NoDup.
  by rewrite <- app_assoc.
Qed.

Lemma filepath_Join_inj d a b :
  filepath.Join d a = filepath.Join d b → a = b.
Proof.
  unfold filepath.Join.
  destruct (String.eqb_spec d "") as [->|Hd]; [done|].
  assert (Hlen : ∀ x, String.length (d +:+ "/" +:+ x) ≠ String.length d).
  { intros x. rewrite !str.length_app. cbn. lia. }
  destruct (String.eqb_spec a "") as [->|Ha], (String.eqb_spec b "") as [->|Hb];
    intros H; try done.
  - exfalso. apply (Hlen b). by rewrite <- H.
  - exfalso. apply (Hlen a). by rewrite H.
  - by simplify_eq.
Qed.

End Sweep.

(** ** Calendar arithmetic *)
Module gregorian.
Import time.
Import calendar.

Lemma norm_id hi lo base : 0 <= lo < base -> norm hi lo base = (hi, lo).
Proof.
  intros H. unfold norm.
  destruct (Z.ltb_spec lo 0); [lia|].
  destruct (Z.leb_spec base lo); [lia|]. reflexivity.
Qed.

Lemma daysBeforeYear_cycles a b c e :
  0 <= b <= 3 -> 0 <= c <= 24 -> 0 <= e <= 3 ->
  daysBeforeYear (cycles a b c e) = 146097 * a + 36524 * b + 1461 * c + 365 * e.
Proof.
  intros Hb Hc He. unfold daysBeforeYear, cycles, daysPer400Years,
    daysPer100Years, daysPer4Years.
  replace (400 * a + 100 * b + 4 * c + e + 1 - 1)
    with (400 * a + (100 * b + 4 * c + e)) by lia.
  rewrite <- (Z.div_unique (400 * a + (100 * b + 4 * c + e)) 400 a
               (100 * b + 4 * c + e)) by lia.
  replace (400 * a + (100 * b + 4 * c + e) - 400 * a)
    with (100 * b + (4 * c + e)) by lia.
  rewrite <- (Z.div_unique (100 * b + (4 * c + e)) 100 b (4 * c + e)) by lia.
  replace (100 * b + (4 * c + e) - 100 * b) with (4 * c + e) by lia.
  rewrite <- (Z.div_unique (4 * c + e) 4 c e) by lia.
  lia.
Qed.

Lemma isLeap_cycles a b c e :
  0 <= b <= 3 -> 0 <= c <= 24 -> 0 <= e <= 3 ->
  isLeap (cycles a b c e) = (e =? 3) && (negb (c =? 24) || (b =? 3)).
Proof.
  intros Hb Hc He. unfold isLeap, cycles.
  destruct (Z.eqb_spec e 3) as [->|Hne]; cbn [andb].
  - replace (400 * a + 100 * b + 4 * c + 3 + 1)
      with (4 * (100 * a + 25 * b + c + 1)) by lia.
    rewrite Z.mul_comm, Z.mod_mul by lia. cbn [Z.eqb andb].
    destruct (Z.eqb_spec c 24) as [->|Hc24]; cbn [negb orb].
    + replace (100 * a + 25 * b + 24 + 1) with (25 * (4 * a + b + 1)) by lia.
      replace (25 * (4 * a + b + 1) * 4) with ((4 * a + b + 1) * 100) by lia.
      rewrite Z.mod_mul by lia. cbn [Z.eqb negb orb].
      destruct (Z.eqb_spec b 3) as [->|Hb3].
      * replace ((4 * a + 3 + 1) * 100) with ((a + 1) * 400) by lia.
        by rewrite Z.mod_mul by lia.
      * replace ((4 * a + b + 1) * 100) with (400 * a + (100 * b + 100)) by lia.
        rewrite <- (Z.mod_unique (400 * a + (100 * b + 100)) 400 a (100 * b + 100))
          by lia.
        destruct (Z.eqb_spec (100 * b + 100) 0); [lia|done].
    + destruct (Z.eqb_spec ((100 * a + 25 * b + c + 1) * 4 mod 100) 0) as [E|E];
        [|done].
      exfalso. apply Z.mod_divide in E; [|lia]. destruct E as [k Hk]. lia.
  - destruct (Z.eqb_spec ((400 * a + 100 * b + 4 * c + e + 1) mod 4) 0) as [E|E];
      [|done].
    exfalso. apply Z.mod_divide in E; [|lia]. destruct E as [k Hk]. lia.
Qed.

(** [absYear] finds the cycle counts of the day. *)
Lemma absYear_cycles d :
  exists a b c e yd,
    absYear d = (cycles a b c e, yd) /\
    0 <= b <= 3 /\ 0 <= c <= 24 /\ 0 <= e <= 3 /\
    d = 146097 * a + 36524 * b + 1461 * c + 365 * e + yd /\
    0 <= yd <= 365 /\
    (yd = 365 -> e = 3 /\ (c = 24 -> b = 3)).
Proof.
  unfold absYear, daysPer400Years, daysPer100Years, daysPer4Years.
  rewrite !Z.shiftr_div_pow2 by lia. change (2 ^ 2) with 4.
  set (a := d / 146097).
  set (d1 := d - 146097 * a).
  set (b := d1 / 36524 - d1 / 36524 / 4).
  set (d2 := d1 - 36524 * b).
  set (c := d2 / 1461).
  set (d3 := d2 - 1461 * c).
  set (e := d3 / 365 - d3 / 365 / 4).
  exists a, b, c, e, (d3 - 365 * e).
  assert (H1 : 0 <= d1 < 146097) by (subst d1 a; Z.div_mod_to_equations; lia).
  assert (Hb : 0 <= b <= 3 /\ 0 <= d2 <= 36524 /\ (d2 = 36524 -> b = 3)).
  { subst d2 b. Z.div_mod_to_equations. lia. }
  assert (Hc : 0 <= c <= 24 /\ 0 <= d3 < 1461 /\ (c = 24 -> d3 = 1460 -> b = 3)).
  { subst d3 c. Z.div_mod_to_equations. lia. }
  assert (He : 0 <= e <= 3 /\ 0 <= d3 - 365 * e <= 365 /\
               (d3 - 365 * e = 365 -> e = 3 /\ d3 = 1460)).
  { subst e. Z.div_mod_to_equations. lia. }
  split.
  { reflexivity. }
  repeat split; lia.
Qed.

Lemma forall_below (P : Z -> bool) (n : nat) :
  List.forallb P (List.map Z.of_nat (List.seq 0 n)) = true ->
  forall z, 0 <= z < Z.of_nat n -> P z = true.
Proof.
  intros H z Hz. rewrite List.forallb_forall in H. apply H.
  apply List.in_map_iff. exists (Z.to_nat z). split; [lia|].
  apply List.in_seq. lia.
Qed.

Lemma yearDay_ok_all (leap : bool) yd :
  0 <= yd < (if leap then 366 else 365) -> yearDay_ok leap yd = true.
Proof.
  destruct leap; intros H.
  - apply (forall_below (yearDay_ok true) 366); [by vm_compute | lia].
  - apply (forall_below (yearDay_ok false) 365); [by vm_compute | lia].
Qed.

(** [absDate] followed by the day count of [Date] gives the day back. *)
Lemma absYear_yearDay d :
  exists year yd month day,
    absYear d = (year, yd) /\ yearDay (isLeap year) yd = (month, day) /\
    0 <= yd < (if isLeap year then 366 else 365) /\
    1 <= month <= 12 /\ 1 <= day <= 31 /\
    daysBeforeYear year + dayOfYear (isLeap year) month day = d.
Proof.
  destruct (absYear_cycles d)
    as (a & b & c & e & yd & Hy & Hb & Hc & He & Hd & Hyd & H365).
  assert (Hr : 0 <= yd < (if isLeap (cycles a b c e) then 366 else 365)).
  { rewrite isLeap_cycles by done.
    destruct (Z.eqb_spec e 3), (Z.eqb_spec c 24), (Z.eqb_spec b 3);
      cbn [andb orb negb]; lia. }
  pose proof (yearDay_ok_all _ _ Hr) as Hok. unfold yearDay_ok in Hok.
  destruct (yearDay (isLeap (cycles a b c e)) yd) as [month day] eqn:Hmd.
  exists (cycles a b c e), yd, month, day.
  rewrite daysBeforeYear_cycles by done.
  repeat split; try done; lia.
Qed.

Lemma absClock_spec a :
  exists hour min sec,
    absClock a = (hour, min, sec) /\
    0 <= hour < 24 /\ 0 <= min < 60 /\ 0 <= sec < 60 /\
    hour * 3600 + min * 60 + sec = a mod 86400.
Proof.
  unfold absClock, secondsPerDay, secondsPerHour, secondsPerMinute.
  eexists _, _, _. split; [reflexivity|].
  Z.div_mod_to_equations. lia.
Qed.

Lemma lookup_fixed off sec : lookup (FixedZone off) sec = (off, alpha, omega).
Proof. reflexivity. Qed.

Lemma lookup_tx_offset l : forall off start sec,
  (lookup_tx off start l sec).1.1 ∈ off :: l.*2.
Proof.
  induction l as [|[w o] rest IH]; intros off start sec; cbn.
  - left.
  - destruct (sec <? w); cbn; [left|].
    right. apply IH.
Qed.

Lemma zoneOffset_offsets l sec : zoneOffset l sec ∈ offsets l.
Proof. apply lookup_tx_offset. Qed.

(** *** Fixed-width arithmetic *)

Lemma int64_small z : - 2 ^ 63 <= z < 2 ^ 63 -> int64 z = z.
Proof. intros H. unfold int64. rewrite Z.mod_small by lia. lia. Qed.

Lemma uint64_small z : 0 <= z < 2 ^ 64 -> uint64 z = z.
Proof. intros H. unfold uint64. by rewrite Z.mod_small by lia. Qed.

Lemma int32_small z : - 2 ^ 31 <= z < 2 ^ 31 -> int32 z = z.
Proof. intros H. unfold int32. rewrite Z.mod_small by lia. lia. Qed.

Lemma uint64_add_r a b : uint64 (a + uint64 b) = uint64 (a + b).
Proof. unfold uint64. by rewrite Zplus_mod_idemp_r. Qed.

Lemma int64_add_l a b : int64 (int64 a + b) = int64 (a + b).
Proof.
  unfold int64. f_equal.
  replace ((a + 2 ^ 63) mod 2 ^ 64 - 2 ^ 63 + b + 2 ^ 63)
    with ((a + 2 ^ 63) mod 2 ^ 64 + b) by lia.
  rewrite Zplus_mod_idemp_l. f_equal. lia.
Qed.

(** From the absolute zero year on, the day count of [Date] is the count
    from year 1 plus the days between the two years. *)
Lemma daysSinceEpoch_exact year :
  absoluteZeroYear <= year <= 2 ^ 40 ->
  daysSinceEpoch year = daysBeforeYear year + 106751990353932.
Proof.
  intros Hy. unfold daysSinceEpoch, daysBeforeYear, absoluteZeroYear in *.
  unfold daysPer400Years, daysPer100Years, daysPer4Years.
  rewrite (int64_small (year - _)) by lia.
  rewrite (uint64_small (year - _)) by lia.
  set (y := year - -292277022399).
  replace (year - 1) with (y - 400 * 730692556) by (subst y; lia).
  assert (Hy0 : 0 <= y < 2 ^ 41) by (subst y; lia). clearbody y.
  repeat match goal with
         | |- context [uint64 ?x] =>
             lazymatch x with
             | context [uint64 _] => fail
             | _ => rewrite (uint64_small x) by (Z.div_mod_to_equations; lia)
             end
         end.
  Z.div_mod_to_equations. lia.
Qed.

Lemma daysBeforeYear_closed y :
  daysBeforeYear y = 365 * (y - 1) + (y - 1) / 4 - (y - 1) / 100 + (y - 1) / 400.
Proof.
  unfold daysBeforeYear, daysPer400Years, daysPer100Years, daysPer4Years.
  Z.div_mod_to_equations. lia.
Qed.

(** Years and day counts, from the absolute zero year to year 2^40. *)
Lemma year_of_days year :
  - 106751990353932 <= daysBeforeYear year <= 2 ^ 47 ->
  absoluteZeroYear <= year <= 2 ^ 40.
Proof.
  unfold absoluteZeroYear. rewrite daysBeforeYear_closed.
  Z.div_mod_to_equations. lia.
Qed.

(** In any location whose offsets differ by less than a day, a calendar
    day is 86400 seconds, up to the change of offset between the two
    dates: as long as the instant and the instant that many times 24 hours
    away are in range, so that nothing wraps around. *)
Lemma AddDate_days t k :
  wf t -> reach t 0 -> reach t k -> narrow (loc t) ->
  exists o : Z, o ∈ offsets (loc t) ∧
    AddDate t 0 0 k =
    mkTime (unixSec t + 86400 * k + zoneOffset (loc t) (unixSec t) - o)
           (nsec t) (loc t).
Proof.
  intros Hns [Hutc Hlocal] [Hutc' Hlocal'] Hnarrow.
  unfold inRange in *. unfold AddDate, Date_of, Clock, absDate.
  destruct (absYear_yearDay (abs t / secondsPerDay))
    as (year & yd & month & day & -> & -> & Hyd & Hm & Hd & Hdays).
  destruct (absClock_spec (abs t)) as (hour & min & sec & -> & Hh & Hmi & Hs & Hclk).
  assert (Hdm : abs t = 86400 * (abs t / 86400) + abs t mod 86400)
    by (apply Z.div_mod; lia).
  assert (Habs : abs t = unixSec t + zoneOffset (loc t) (unixSec t) + 62135596800)
    by reflexivity.
  unfold dayOfYear in Hdays. unfold secondsPerDay in *.
  assert (Hdb : 0 <= daysBefore (month - 1) <= 334).
  { assert (Hc : month - 1 = 0 ∨ month - 1 = 1 ∨ month - 1 = 2 ∨ month - 1 = 3 ∨
                 month - 1 = 4 ∨ month - 1 = 5 ∨ month - 1 = 6 ∨ month - 1 = 7 ∨
                 month - 1 = 8 ∨ month - 1 = 9 ∨ month - 1 = 10 ∨ month - 1 = 11)
      by lia.
    destruct Hc as [->|[->|[->|[->|[->|[->|[->|[->|[->|[->|[->| ->]]]]]]]]]]];
      cbn; lia. }
  assert (Hyear : absoluteZeroYear <= year <= 2 ^ 40).
  { apply year_of_days. destruct (isLeap year && (3 <=? month)); lia. }
  unfold absoluteZeroYear in Hyear.
  unfold Date.
  rewrite (int64_small (year + 0)), (int64_small (month + 0)),
    (int64_small (day + k)) by lia.
  rewrite (int64_small (month + 0 - 1)) by lia.
  rewrite (norm_id _ _ 12) by lia.
  rewrite (norm_id _ _ 1000000000) by (apply Hns).
  rewrite (norm_id _ _ 60) by lia.
  rewrite (norm_id _ _ 60) by lia.
  rewrite (norm_id _ _ 24) by lia.
  rewrite (int64_small (month + 0 - 1 + 1)) by lia.
  replace (year + 0) with year by lia.
  replace (month + 0 - 1 + 1) with month by lia.
  replace (month + 0 - 1) with (month - 1) by lia.
  rewrite daysSinceEpoch_exact by (unfold absoluteZeroYear; lia).
  unfold secondsPerHour, secondsPerMinute, absoluteToInternal, internalToUnix,
    unixToInternal, secondsPerDay.
  change ((1969 * 365 + 1969 / 4 - 1969 / 100 + 1969 / 400) * 86400)
    with 62135596800.
  set (guess := int64 (int64 _ + _)).
  assert (Hguess : guess = unixSec t + 86400 * k + zoneOffset (loc t) (unixSec t)).
  { subst guess.
    destruct (isLeap year && (3 <=? month)); in_range;
      rewrite uint64_add_r; in_range; rewrite int64_add_l; in_range; lia. }
  clearbody guess.
  pose proof (zoneOffset_offsets (loc t) (unixSec t)) as H0.
  pose proof (zoneOffset_offsets (loc t) guess) as H1.
  pose proof (zoneOffset_offsets (loc t) (int64 (guess - zoneOffset (loc t) guess)))
    as H2.
  unfold zoneOffset in H1, H2.
  destruct (lookup (loc t) guess) as [[offset start] end_]. cbn [fst] in H1, H2.
  pose proof (Hnarrow _ _ H0 H1). pose proof (Hnarrow _ _ H1 H0).
  unfold unixTime, unixToInternal, secondsPerDay.
  change ((1969 * 365 + 1969 / 4 - 1969 / 100 + 1969 / 400) * 86400)
    with 62135596800.
  rewrite (int32_small (nsec t)) by (unfold wf in Hns; lia).
  destruct (Z.eqb_spec offset 0) as [Hz|Hz].
  { exists offset. split; [done|]. in_range. f_equal. lia. }
  rewrite !(int64_small (guess - offset)) by lia.
  rewrite (int64_small (guess - offset)) in H2 by lia.
  destruct ((guess - offset <? start) || (end_ <=? guess - offset)).
  - pose proof (Hnarrow _ _ H0 H2). pose proof (Hnarrow _ _ H2 H0).
    eexists. split; [exact H2|]. in_range. f_equal. lia.
  - exists offset. split; [done|]. in_range. f_equal. lia.
Qed.

(** In a location with one fixed offset, a calendar day is 86400
    seconds. *)
Lemma AddDate_days_fixed t off k :
  loc t = FixedZone off -> wf t -> reach t 0 -> reach t k ->
  AddDate t 0 0 k = mkTime (unixSec t + 86400 * k) (nsec t) (loc t).
Proof.
  intros Hloc Hns Hnear Hk.
  assert (Hnarrow : narrow (loc t)).
  { rewrite Hloc. intros o1 o2 H1 H2. cbn in H1, H2.
    apply list_elem_of_singleton in H1, H2. lia. }
  destruct (AddDate_days t k Hns Hnear Hk Hnarrow) as (o & Ho & ->).
  rewrite Hloc in Ho |- *. unfold zoneOffset. rewrite lookup_fixed.
  apply list_elem_of_singleton in Ho. cbn in Ho. cbn [fst]. f_equal. lia.
Qed.

End gregorian.

(** ** The retention sweep ([cleanupOldBackups]) *)

Lemma files_lookup_Some w name (node : Node) :
  files w !! name = Some node → outdir w = Some (files w).
Proof. unfold files. destruct (outdir w); [done|]. cbn. by rewrite lookup_empty. Qed.

Lemma since_app w env o evs :
  since w (mkWorld env o (trace w ++ evs)) = evs.
Proof. unfold since. cbn. apply drop_app_length. Qed.

Lemma files_emit ev w : files (emit ev w) = files w.
Proof. reflexivity. Qed.

Lemma since_emit ev w : since w (emit ev w) = [ev].
Proof. unfold emit. apply since_app. Qed.

Lemma cleanup_files bt now w m :
  outdir w = Some m →
  files (cleanupOldBackups bt now None w).1 =
  foldl (visit (cutoffOf bt now) m) m (os.listing m).
Proof. intros Hm. by rewrite (cleanup_spec bt (cutoffOf bt now) now w m). Qed.

Lemma cleanup_since bt now w m :
  outdir w = Some m →
  since w (cleanupOldBackups bt now None w).1 =
  EvReadDir (OutputDir (Backup (config bt))) ::
  flat_map (entryEvents bt (cutoffOf bt now) m) (os.listing m).
Proof.
  intros Hm. rewrite (cleanup_spec bt (cutoffOf bt now) now w m) by done.
  apply since_app.
Qed.

Lemma cleanup_failed_listing bt now e w :
  cleanupOldBackups bt now (Some e) w =
  (emit (EvReadDir (OutputDir (Backup (config bt)))) w,
   Some ("failed to read backup directory: " +:+
         match outdir w with
         | None => os.PathError "open" (OutputDir (Backup (config bt))) os.ErrNotExist
         | Some _ => e
         end)).
Proof.
  unfold cleanupOldBackups, os.ReadDir. cbn. by destruct (outdir w).
Qed.

(** The entry of a node in the listing. *)
Lemma listing_entry m name (node : Node) :
  m !! name = Some node → os.mkDirEntry name (isDir node) ∈ os.listing m.
Proof. intros H. apply elem_of_listing. by exists node. Qed.

(** A removal recorded for [name] comes from the entry of that name. *)
Lemma remove_event_inv bt cutoff m name :
  EvRemove (pathOf bt name) ∈ flat_map (entryEvents bt cutoff m) (os.listing m) →
  ∃ node, m !! name = Some node ∧ isDir node = false ∧ statErr node = None ∧
          time.Before (modTime node) cutoff = true.
Proof.
  rewrite elem_of_flat_map. intros (e & He & Hev).
  apply elem_of_listing in He as (node & Hm & Hd).
  unfold entryEvents in Hev. rewrite Hm in Hev.
  destruct (os.IsDir e) eqn:Hdir; [by apply elem_of_nil in Hev|].
  apply elem_of_cons in Hev as [Hev|Hev]; [done|].
  destruct (statErr node) eqn:Hs; [by apply elem_of_nil in Hev|].
  destruct (time.Before (modTime node) cutoff) eqn:Hb; [|by apply elem_of_nil in Hev].
  apply elem_of_cons in Hev as [Hev|Hev].
  2:{ apply elem_of_cons in Hev as [Hev|Hev]; [done|by apply elem_of_nil in Hev]. }
  injection Hev as Hev. apply filepath_Join_inj in Hev. subst name.
  exists node. by repeat split.
Qed.

(** The events recorded for an entry that is old enough. *)
Lemma remove_event_intro bt cutoff m name node :
  m !! name = Some node → isDir node = false → statErr node = None →
  time.Before (modTime node) cutoff = true →
  ∀ ev, ev ∈ [ EvLstat (pathOf bt name); EvRemove (pathOf bt name);
               EvLog (match removeErr node with
                      | Some err => RemoveFailed (pathOf bt name) err
                      | None => Removed (pathOf bt name)
                      end) ] →
        ev ∈ flat_map (entryEvents bt cutoff m) (os.listing m).
Proof.
  intros Hm Hd Hs Hb ev Hev. apply elem_of_flat_map.
  exists (os.mkDirEntry name (isDir node)). split; [by apply listing_entry|].
  unfold entryEvents. cbn. by rewrite Hd, Hm, Hs, Hb.
Qed.

(** C5: the sweep never deletes a directory entry of the output directory,
    whatever its age: a node that is a directory is still there, unchanged,
    after [cleanupOldBackups], and neither [Info] nor [os.Remove] was called
    on its path.  This holds whether or not the directory could be listed. *)
Theorem sweep_skips_directories
    (bt : BackupTool) (now : time.Time) (fail : option error) (w : World)
    (name : string) (node : Node) :
  files w !! name = Some node → isDir node = true →
  let w' := (cleanupOldBackups bt now fail w).1 in
  files w' !! name = Some node ∧
  (EvRemove (pathOf bt name) ∉ since w w') ∧
  (EvLstat (pathOf bt name) ∉ since w w').
Proof.
  intros Hn Hd. cbv zeta.
  pose proof (files_lookup_Some _ _ _ Hn) as Hm.
  destruct fail as [e|].
  { rewrite cleanup_failed_listing. cbn [fst].
    rewrite since_emit, files_emit.
    split; [done|]. split; intros H; apply list_elem_of_singleton in H; done. }
  rewrite (cleanup_since bt now w _ Hm), (cleanup_files bt now w _ Hm).
  split; [|split].
  - rewrite foldl_visit_kept; [done|].
    intros e He Hname. unfold unlinked.
    apply elem_of_listing in He as (node' & Hn' & Hd').
    rewrite Hname, Hn in Hn'. injection Hn' as <-. by rewrite Hd', Hd.
  - intros H. apply elem_of_cons in H as [H|H]; [done|].
    apply remove_event_inv in H as (node' & Hn' & Hd' & _).
    rewrite Hn in Hn'. injection Hn' as <-. congruence.
  - intros H. apply elem_of_cons in H as [H|H]; [done|].
    apply elem_of_flat_map in H as (e & He & Hev).
    apply elem_of_listing in He as (node' & Hn' & Hd').
    unfold entryEvents in Hev.
    destruct (os.IsDir e) eqn:Hdir; [by apply elem_of_nil in Hev|].
    apply elem_of_cons in Hev as [Hev|Hev].
    + injection Hev as Hev. apply filepath_Join_inj in Hev. subst name.
      rewrite Hn in Hn'. injection Hn' as <-. congruence.
    + destruct (files w !! os.Name_ e) as [n2|]; [|by apply elem_of_nil in Hev].
      destruct (statErr n2); [by apply elem_of_nil in Hev|].
      destruct (time.Before (modTime n2) (cutoffOf bt now));
        [|by apply elem_of_nil in Hev].
      apply elem_of_cons in Hev as [Hev|Hev]; [done|].
      apply elem_of_cons in Hev as [Hev|Hev]; [done|by apply elem_of_nil in Hev].
Qed.

(** C6: a failure to delete one eligible entry is logged for that entry and
    does not abort the sweep.  In any directory, whatever the other entries
    are and however their removals end, every entry that is not a directory,
    can be inspected and is older than the cutoff is visited ([Info]) and a
    removal is attempted ([os.Remove]); when the removal fails, that failure
    is logged with the entry's path and the entry stays; when it succeeds,
    the removal is logged and the entry is gone.  The sweep itself reports
    no error. *)
Theorem sweep_attempts_every_eligible_entry
    (bt : BackupTool) (now : time.Time) (w : World) (name : string) (node : Node) :
  files w !! name = Some node → isDir node = false → statErr node = None →
  time.Before (modTime node) (cutoffOf bt now) = true →
  let w' := (cleanupOldBackups bt now None w).1 in
  (cleanupOldBackups bt now None w).2 = None ∧
  EvLstat (pathOf bt name) ∈ since w w' ∧
  EvRemove (pathOf bt name) ∈ since w w' ∧
  match removeErr node with
  | Some err =>
      EvLog (RemoveFailed (pathOf bt name) err) ∈ since w w' ∧
      files w' !! name = Some node
  | None =>
      EvLog (Removed (pathOf bt name)) ∈ since w w' ∧
      files w' !! name = None
  end.
Proof.
  intros Hn Hd Hs Hb. cbv zeta.
  pose proof (files_lookup_Some _ _ _ Hn) as Hm.
  pose proof (remove_event_intro bt _ _ _ _ Hn Hd Hs Hb) as Hev.
  rewrite (cleanup_since bt now w _ Hm), (cleanup_files bt now w _ Hm).
  split; [by rewrite (cleanup_spec bt (cutoffOf bt now) now w _ Hm)|].
  split; [right; apply Hev; set_solver|].
  split; [right; apply Hev; set_solver|].
  destruct (removeErr node) as [err|] eqn:Hr.
  - split; [right; apply Hev; set_solver|].
    rewrite foldl_visit_kept; [done|].
    intros e He Hname. unfold unlinked.
    rewrite Hname, Hn, Hs, Hr. by destruct (os.IsDir e).
  - split; [right; apply Hev; set_solver|].
    apply (foldl_visit_unlinked _ _ _ _ _ (listing_entry _ _ _ Hn)).
    unfold unlinked. cbn. by rewrite Hd, Hn, Hs, Hr.
Qed.

Lemma neg_int_small r : - 2 ^ 63 < r < 2 ^ 63 → neg_int r = - r.
Proof. intros H. unfold neg_int, wrap_int. rewrite Z.mod_small by lia. lia. Qed.

(** A shift that keeps an instant in range is far from the ends of
    [int]. *)
Lemma reach_days t k :
  calendar.reach t 0 → calendar.reach t k → - 2 ^ 48 < k < 2 ^ 48.
Proof. unfold calendar.reach, calendar.inRange. lia. Qed.

Lemma UTC_narrow : calendar.narrow time.UTC.
Proof.
  intros o1 o2 H1 H2. cbn in H1, H2.
  apply list_elem_of_singleton in H1, H2. lia.
Qed.

Lemma scenario_reach k :
  - 10 ^ 14 <= k <= 10 ^ 14 → calendar.reach scenario.now k.
Proof.
  intros Hk. unfold calendar.reach, calendar.inRange.
  change (time.unixSec scenario.now) with 1731000000.
  change (time.zoneOffset (time.loc scenario.now) 1731000000) with 0. lia.
Qed.

Lemma FixedZone_narrow l off : l = time.FixedZone off → calendar.narrow l.
Proof.
  intros -> o1 o2 H1 H2. cbn in H1, H2.
  apply list_elem_of_singleton in H1, H2. lia.
Qed.

Lemma Before_sec_lt t u : time.unixSec t < time.unixSec u → time.Before t u = true.
Proof. intros H. unfold time.Before. apply orb_true_iff. left. by apply Z.ltb_lt. Qed.

Lemma Before_sec_gt t u : time.unixSec u < time.unixSec t → time.Before t u = false.
Proof.
  intros H. unfold time.Before. apply orb_false_iff.
  split; [apply Z.ltb_ge; lia|]. apply andb_false_iff. left. apply Z.eqb_neq. lia.
Qed.

(** As long as now and the instant the retention times 24 hours before it
    are in range, the cutoff is the retention in days of 24 hours back on
    the local clock, read with an offset of the location. *)
Lemma cutoff_days bt now :
  calendar.wf now → calendar.reach now 0 →
  calendar.reach now (- Retention (Backup (config bt))) →
  calendar.narrow (time.loc now) →
  ∃ o, o ∈ calendar.offsets (time.loc now) ∧
    cutoffOf bt now =
    time.mkTime (time.unixSec now - 86400 * Retention (Backup (config bt)) +
                 time.zoneOffset (time.loc now) (time.unixSec now) - o)
                (time.nsec now) (time.loc now).
Proof.
  intros Hwf Hnow Hthen Hnarrow. unfold cutoffOf.
  pose proof (reach_days _ _ Hnow Hthen).
  rewrite neg_int_small by lia.
  destruct (gregorian.AddDate_days now (- Retention (Backup (config bt)))
              Hwf Hnow Hthen Hnarrow) as (o & Ho & ->).
  exists o. split; [done|]. f_equal. lia.
Qed.

(** So it lies within a day of the retention times 24 hours before now. *)
Lemma cutoff_within_a_day bt now :
  calendar.wf now → calendar.reach now 0 →
  calendar.reach now (- Retention (Backup (config bt))) →
  calendar.narrow (time.loc now) →
  time.unixSec now - 86400 * Retention (Backup (config bt)) - 86400
    < time.unixSec (cutoffOf bt now)
    < time.unixSec now - 86400 * Retention (Backup (config bt)) + 86400.
Proof.
  intros Hwf Hnow Hthen Hnarrow.
  destruct (cutoff_days bt now Hwf Hnow Hthen Hnarrow) as (o & Ho & ->).
  pose proof (gregorian.zoneOffset_offsets (time.loc now) (time.unixSec now)) as Hz.
  pose proof (Hnarrow _ _ Ho Hz). pose proof (Hnarrow _ _ Hz Ho).
  cbn. lia.
Qed.

(** C2, as the code has it.  For every retention value and every entry of
    the output directory that is not a directory (and can be inspected),
    the sweep calls [os.Remove] on the entry if and only if its
    modification time is strictly before the cutoff
    [now.AddDate(0, 0, -retention)]; the entry is gone afterwards exactly
    when, moreover, the removal succeeds; an entry modified at the cutoff
    itself is kept.  The cutoff is the current time moved back by the
    retention in calendar days as long as Go's date arithmetic does not
    wrap around: when now and the instant the retention times 24 hours
    before it are in range ([calendar.reach]: their seconds stay 2^37 away
    from the ends of [int64]), in a location whose offsets differ by less
    than a day, the cutoff reads on the local clock what now reads, the
    retention in days earlier; so an entry modified one day or more
    beyond the retention ago is removed and one modified one day or more
    short of it is kept (with a retention of 7: removed at exactly 8 days,
    kept at exactly 6), and where the offset is fixed the cutoff is the
    retention times 86400 seconds back, so that the entry modified exactly
    that long ago is kept.  Across a change of offset the cutoff is not a
    multiple of 24 hours back: seven days before 2024-11-07 12:20 in New
    York is 169 hours earlier. *)
Theorem sweep_removes_iff_before_cutoff
    (bt : BackupTool) (now : time.Time) (w : World) (name : string) (node : Node) :
  files w !! name = Some node → isDir node = false → statErr node = None →
  let r := Retention (Backup (config bt)) in
  let cutoff := time.AddDate now 0 0 (neg_int r) in
  let w' := (cleanupOldBackups bt now None w).1 in
  (EvRemove (pathOf bt name) ∈ since w w' ↔
   time.Before (modTime node) cutoff = true) ∧
  (files w' !! name = None ↔
   time.Before (modTime node) cutoff = true ∧ removeErr node = None) ∧
  (time.unixSec (modTime node) = time.unixSec cutoff →
   time.nsec (modTime node) = time.nsec cutoff →
   time.Before (modTime node) cutoff = false) ∧
  (calendar.wf now → calendar.reach now 0 → calendar.reach now (- r) →
   calendar.narrow (time.loc now) →
     (∃ o, o ∈ calendar.offsets (time.loc now) ∧
        cutoff =
        time.mkTime (time.unixSec now - 86400 * r +
                     time.zoneOffset (time.loc now) (time.unixSec now) - o)
                    (time.nsec now) (time.loc now)) ∧
     (∀ k, r + 1 <= k → daysAgo now k (modTime node) →
           time.Before (modTime node) cutoff = true) ∧
     (∀ k, k <= r - 1 → daysAgo now k (modTime node) →
           time.Before (modTime node) cutoff = false) ∧
     (∀ off, time.loc now = time.FixedZone off →
        cutoff = time.AddSeconds now (- (86400 * r)) ∧
        (daysAgo now r (modTime node) →
         time.Before (modTime node) cutoff = false))) ∧
  (r = 7 →
     time.unixSec (time.AddDate (time.mkTime 1731000000 0 New_York) 0 0 (neg_int r))
     = 1731000000 - 169 * 3600).
Proof.
  intros Hn Hd Hs. cbv zeta.
  pose proof (files_lookup_Some _ _ _ Hn) as Hm.
  fold (cutoffOf bt now).
  rewrite (cleanup_since bt now w _ Hm), (cleanup_files bt now w _ Hm).
  assert (Hsame : time.unixSec (modTime node) = time.unixSec (cutoffOf bt now) →
            time.nsec (modTime node) = time.nsec (cutoffOf bt now) →
            time.Before (modTime node) (cutoffOf bt now) = false).
  { intros Hsec Hns. unfold time.Before. rewrite Hsec, Hns.
    by rewrite !Z.ltb_irrefl, andb_false_r. }
  split; [|split; [|split; [|split]]].
  - split.
    + intros H. apply elem_of_cons in H as [H|H]; [done|].
      apply remove_event_inv in H as (node' & Hn' & _ & _ & Hb).
      rewrite Hn in Hn'. by injection Hn' as <-.
    + intros Hb. right.
      apply (remove_event_intro bt _ _ _ _ Hn Hd Hs Hb). set_solver.
  - split.
    + intros Hgone.
      destruct (time.Before (modTime node) (cutoffOf bt now)) eqn:Hb,
               (removeErr node) eqn:Hr; try done;
        (rewrite foldl_visit_kept in Hgone; [congruence|]);
        intros e He Hname; unfold unlinked; rewrite Hname, Hn, Hs, Hr, ?Hb;
        by destruct (os.IsDir e).
    + intros [Hb Hr].
      apply (foldl_visit_unlinked _ _ _ _ _ (listing_entry _ _ _ Hn)).
      unfold unlinked. cbn. by rewrite Hd, Hn, Hs, Hr.
  - exact Hsame.
  - intros Hwf Hnow Hthen Hnarrow.
    pose proof (cutoff_within_a_day bt now Hwf Hnow Hthen Hnarrow) as Hc.
    pose proof (reach_days _ _ Hnow Hthen) as Hr.
    split; [exact (cutoff_days bt now Hwf Hnow Hthen Hnarrow)|].
    split; [|split].
    + intros k Hk [Hsec Hns]. apply Before_sec_lt. nia.
    + intros k Hk [Hsec Hns]. apply Before_sec_gt. nia.
    + intros off Hloc.
      assert (Hfix : cutoffOf bt now =
                time.AddSeconds now (- (86400 * Retention (Backup (config bt))))).
      { unfold cutoffOf. rewrite neg_int_small by lia.
        rewrite (gregorian.AddDate_days_fixed _ off) by done.
        unfold time.AddSeconds. f_equal. lia. }
      split; [exact Hfix|].
      intros [Hsec Hns]. apply Hsame; rewrite Hfix; cbn; lia.
  - intros ->. by vm_compute.
Qed.

Lemma sweep_skips_directories_witness :
  (files scenario.world !! "archive" = Some (scenario.aged 80 true None) ∧
   isDir (scenario.aged 80 true None) = true) ∧
  (files (cleanupOldBackups scenario.bt scenario.now None scenario.world).1
     !! "archive" = Some (scenario.aged 80 true None) ∧
   (EvRemove (pathOf scenario.bt "archive") ∉
      since scenario.world
        (cleanupOldBackups scenario.bt scenario.now None scenario.world).1) ∧
   (EvLstat (pathOf scenario.bt "archive") ∉
      since scenario.world
        (cleanupOldBackups scenario.bt scenario.now None scenario.world).1)).
Proof.
  split; [split; reflexivity|].
  apply (sweep_skips_directories scenario.bt scenario.now None scenario.world
           "archive" (scenario.aged 80 true None)); reflexivity.
Defined.

Lemma sweep_attempts_every_eligible_entry_witness :
  (files scenario.world !! "locked.dump"
     = Some (scenario.aged 30 false (Some "permission denied")) ∧
   time.Before (modTime (scenario.aged 30 false (Some "permission denied")))
     (cutoffOf scenario.bt scenario.now) = true) ∧
  (cleanupOldBackups scenario.bt scenario.now None scenario.world).2 = None ∧
  EvRemove (pathOf scenario.bt "locked.dump") ∈
    since scenario.world
      (cleanupOldBackups scenario.bt scenario.now None scenario.world).1 ∧
  EvLog (RemoveFailed (pathOf scenario.bt "locked.dump") "permission denied") ∈
    since scenario.world
      (cleanupOldBackups scenario.bt scenario.now None scenario.world).1 ∧
  EvRemove (pathOf scenario.bt "shop_8.dump") ∈
    since scenario.world
      (cleanupOldBackups scenario.bt scenario.now None scenario.world).1 ∧
  files (cleanupOldBackups scenario.bt scenario.now None scenario.world).1
    !! "locked.dump" = Some (scenario.aged 30 false (Some "permission denied")).
Proof.
  pose proof (sweep_attempts_every_eligible_entry scenario.bt scenario.now
                scenario.world "locked.dump"
                (scenario.aged 30 false (Some "permission denied"))
                eq_refl eq_refl eq_refl eq_refl) as H.
  pose proof (sweep_attempts_every_eligible_entry scenario.bt scenario.now
                scenario.world "shop_8.dump" (scenario.aged 8 false None)
                eq_refl eq_refl eq_refl eq_refl) as H8.
  cbv zeta in H, H8. cbn [removeErr scenario.aged] in H, H8.
  split; [split; reflexivity|]. tauto.
Defined.

Lemma sweep_removes_iff_before_cutoff_witness :
  (files scenario.world !! "shop_8.dump" = Some (scenario.aged 8 false None) ∧
   isDir (scenario.aged 8 false None) = false ∧
   statErr (scenario.aged 8 false None) = None ∧
   calendar.wf scenario.now ∧ calendar.reach scenario.now 0 ∧
   calendar.reach scenario.now (-7) ∧
   Retention (Backup (config scenario.bt)) = 7 ∧
   daysAgo scenario.now 8 (modTime (scenario.aged 8 false None))) ∧
  time.Before (modTime (scenario.aged 8 false None))
    (time.AddDate scenario.now 0 0 (neg_int 7)) = true ∧
  (EvRemove (pathOf scenario.bt "shop_8.dump") ∈
     since scenario.world
       (cleanupOldBackups scenario.bt scenario.now None scenario.world).1) ∧
  files (cleanupOldBackups scenario.bt scenario.now None scenario.world).1
    !! "shop_8.dump" = None.
Proof.
  assert (Hwf : calendar.wf scenario.now) by (by vm_compute).
  assert (Hago : daysAgo scenario.now 8 (modTime (scenario.aged 8 false None)))
    by (by vm_compute).
  pose proof (sweep_removes_iff_before_cutoff scenario.bt scenario.now
                scenario.world "shop_8.dump" (scenario.aged 8 false None)
                eq_refl eq_refl eq_refl) as H.
  cbv zeta in H. destruct H as (Hev & Hgone & _ & Hcal & _).
  assert (Hnow : calendar.reach scenario.now 0) by (apply scenario_reach; lia).
  assert (Hthen : calendar.reach scenario.now (-7)) by (apply scenario_reach; lia).
  assert (H78 : Retention (Backup (config scenario.bt)) + 1 <= 8)
    by (by vm_compute).
  destruct (Hcal Hwf Hnow Hthen UTC_narrow) as (_ & Hold & _).
  pose proof (Hold 8 H78 Hago) as Hb.
  split;
    [split_and!;
       reflexivity || exact Hnow || exact Hthen || exact Hwf || exact Hago|].
  split; [exact Hb|].
  split; [apply Hev; exact Hb|apply Hgone; split; [exact Hb|reflexivity]].
Defined.

(** The claim of C2 fails where the date arithmetic wraps around.  With a
    retention of 2^63 - 1 days, which [loadConfig] lets through, the cutoff
    is not that many days before now but one day after it, and the sweep
    removes the entry modified six days ago. *)
Lemma huge_retention_wraps_around :
  Retention (Backup (config hoarder)) = 2 ^ 63 - 1 ∧
  cutoffOf hoarder scenario.now = time.AddSeconds scenario.now 86400 ∧
  files scenario.world !! "shop_6.dump" = Some (scenario.aged 6 false None) ∧
  daysAgo scenario.now 6 (modTime (scenario.aged 6 false None)) ∧
  time.Before (modTime (scenario.aged 6 false None))
    (cutoffOf hoarder scenario.now) = true ∧
  files (cleanupOldBackups hoarder scenario.now None scenario.world).1
    !! "shop_6.dump" = None.
Proof. split_and!; try reflexivity. split; reflexivity. Qed.

(** ** One cycle ([performBackup]) *)

Lemma sweep_events bt cutoff entries : ∀ w,
  ∃ evs, trace (sweep bt cutoff entries w) = trace w ++ evs ∧
         forallb sweepEvent evs = true ∧
         environ (sweep bt cutoff entries w) = environ w ∧
         (is_Some (outdir w) → is_Some (outdir (sweep bt cutoff entries w))).
Proof.
  induction entries as [|e es IH]; intros w.
  { exists []. cbn. by rewrite app_nil_r. }
  cbn [sweep]. destruct (os.IsDir e); [apply IH|].
  unfold os.Info. set (w1 := emit _ w).
  assert (H1 : ∀ w2 evs1, trace w2 = trace w1 ++ evs1 →
            forallb sweepEvent evs1 = true → environ w2 = environ w →
            (is_Some (outdir w) → is_Some (outdir w2)) →
            ∃ evs, trace (sweep bt cutoff es w2) = trace w ++ evs ∧
                   forallb sweepEvent evs = true ∧
                   environ (sweep bt cutoff es w2) = environ w ∧
                   (is_Some (outdir w) → is_Some (outdir (sweep bt cutoff es w2)))).
  { intros w2 evs1 Ht Hf He Ho. destruct (IH w2) as (evs & Ht' & Hf' & He' & Ho').
    exists (EvLstat (filepath.Join (OutputDir (Backup (config bt))) (os.Name_ e))
            :: evs1 ++ evs).
    rewrite Ht', Ht. subst w1. cbn. rewrite <- !app_assoc. cbn.
    rewrite forallb_app, Hf, Hf'. repeat split; [congruence|tauto]. }
  destruct (files w1 !! os.Name_ e) as [node|] eqn:Hn.
  2:{ apply (H1 w1 []); [by rewrite app_nil_r|done..]. }
  destruct (statErr node).
  { apply (H1 w1 []); [by rewrite app_nil_r|done..]. }
  cbn [os.ModTime].
  destruct (time.Before (modTime node) cutoff).
  2:{ apply (H1 w1 []); [by rewrite app_nil_r|done..]. }
  unfold os.Remove. rewrite files_emit, Hn.
  destruct (removeErr node) as [err|].
  - eapply (H1 _ [_; _]); [cbn; by rewrite <- app_assoc|done..].
  - eapply (H1 _ [_; _]); [cbn; by rewrite <- app_assoc|done|done|].
    cbn. intros [m ->]. by eexists.
Qed.

Lemma cleanup_events bt now fail w :
  ∃ evs, trace (cleanupOldBackups bt now fail w).1 =
           trace w ++ EvReadDir (OutputDir (Backup (config bt))) :: evs ∧
         forallb sweepEvent evs = true ∧
         environ (cleanupOldBackups bt now fail w).1 = environ w ∧
         (is_Some (outdir w) → is_Some (outdir (cleanupOldBackups bt now fail w).1)).
Proof.
  unfold cleanupOldBackups, os.ReadDir. set (w1 := emit _ w).
  destruct (outdir w1) as [m|] eqn:Ho; [destruct fail|].
  1,3: exists []; cbn; repeat split; try done; subst w1; by rewrite ?Ho.
  cbn [fst]. destruct (sweep_events bt
    (time.AddDate now 0 0 (neg_int (Retention (Backup (config bt)))))
    (os.listing m) w1) as (evs & Ht & Hf & He & Hs).
  exists evs. rewrite Ht, He. subst w1. cbn. rewrite <- app_assoc.
  by repeat split.
Qed.

(** The events of one cycle. *)
Lemma performBackup_events bt inp w :
  environ (performBackup bt inp w).1 = environ w ∧
  (is_Some (outdir w) → is_Some (outdir (performBackup bt inp w).1)) ∧
  match exitErr (execRes inp) with
  | Some e =>
      (performBackup bt inp w).2 = Some (dumpError inp e) ∧
      since w (performBackup bt inp w).1 = dumpEvents bt inp (environ w)
  | None =>
      (performBackup bt inp w).2 = None ∧
      ∃ evs warn,
        since w (performBackup bt inp w).1 =
          dumpEvents bt inp (environ w) ++
          EvLog (BackupCompleted (pathOf bt (filename bt (nowName inp)))) ::
          EvReadDir (OutputDir (Backup (config bt))) :: evs ++ warn ∧
        forallb sweepEvent evs = true ∧
        (warn = [] ∨ ∃ e, warn = [EvLog (CleanupWarning e)])
  end.
Proof.
  unfold performBackup, CombinedOutput, logger_Print.
  set (w1 := emit _ (emit _ (emit _ w))).
  set (w2 := match artifact (execRes inp) with Some _ => _ | None => w1 end).
  assert (H2 : trace w2 = trace w ++ dumpEvents bt inp (environ w) ∧
               environ w2 = environ w ∧
               (is_Some (outdir w) → is_Some (outdir w2))).
  { subst w2 w1. destruct (artifact (execRes inp)); cbn; rewrite <- !app_assoc;
      repeat split; try done. intros [m ->]. by eexists. }
  destruct H2 as (Ht2 & He2 & Ho2).
  destruct (exitErr (execRes inp)) as [e|].
  { cbn [fst snd]. repeat split; try done.
    unfold since. rewrite Ht2. apply drop_app_length. }
  set (w3 := emit _ w2).
  destruct (cleanup_events bt (nowSweep inp) (readDirErr inp) w3)
    as (evs & Ht & Hf & He & Ho).
  destruct (cleanupOldBackups bt (nowSweep inp) (readDirErr inp) w3) as [w4 err].
  cbn [fst snd] in *.
  assert (Ht4 : trace w4 = trace w ++ dumpEvents bt inp (environ w) ++
            EvLog (BackupCompleted (pathOf bt (filename bt (nowName inp)))) ::
            EvReadDir (OutputDir (Backup (config bt))) :: evs).
  { rewrite Ht. subst w3. cbn. rewrite Ht2, <- !app_assoc. done. }
  assert (He4 : environ w4 = environ w) by (by rewrite He).
  assert (Ho4 : is_Some (outdir w) → is_Some (outdir w4)) by (intros; by apply Ho, Ho2).
  destruct err as [err|]; cbn.
  - split; [done|]. split; [done|]. split; [done|].
    exists evs, [EvLog (CleanupWarning err)]. unfold since. cbn.
    rewrite Ht4. rewrite <- !app_assoc. rewrite drop_app_length.
    repeat split; eauto.
  - split; [done|]. split; [done|]. split; [done|].
    exists evs, []. unfold since. rewrite Ht4, drop_app_length, app_nil_r.
    repeat split; eauto.
Qed.

Lemma not_sweepEvent_in ev evs :
  forallb sweepEvent evs = true → sweepEvent ev = false → ev ∉ evs.
Proof.
  intros Hf Hev Hin. apply list_elem_of_In in Hin.
  rewrite forallb_forall in Hf. apply Hf in Hin. congruence.
Qed.

(** Whether an event stands among those of a cycle, when no sweep event
    can be it. *)
Lemma cycle_event_cases bt inp w ev :
  sweepEvent ev = false →
  ev ∈ since w (performBackup bt inp w).1 →
  ev ∈ dumpEvents bt inp (environ w) ∨
  exitErr (execRes inp) = None ∧
  (ev = EvLog (BackupCompleted (pathOf bt (filename bt (nowName inp)))) ∨
   ev = EvReadDir (OutputDir (Backup (config bt))) ∨
   ∃ e, ev = EvLog (CleanupWarning e)).
Proof.
  intros Hsw. destruct (performBackup_events bt inp w) as (_ & _ & H).
  destruct (exitErr (execRes inp)) as [e|].
  - destruct H as [_ ->]. by left.
  - destruct H as (_ & evs & warn & -> & Hf & Hw). intros Hin.
    apply elem_of_app in Hin as [Hin|Hin]; [by left|right]. split; [done|].
    apply elem_of_cons in Hin as [->|Hin]; [by left|].
    apply elem_of_cons in Hin as [->|Hin]; [by right; left|].
    apply elem_of_app in Hin as [Hin|Hin].
    + by apply (not_sweepEvent_in _ _ Hf Hsw) in Hin.
    + destruct Hw as [->|[e ->]]; [by apply elem_of_nil in Hin|].
      apply list_elem_of_singleton in Hin. right; right. by exists e.
Qed.

(** C1, as the code has it: in every cycle the sweep is invoked exactly when
    the dump succeeded.  The dump command is always run; when it exits with
    an error, [performBackup] returns that error (with the captured output)
    at once and the cycle records nothing after the run, so the directory is
    not listed and nothing is removed; when it succeeds the directory is
    listed and the cycle returns no error.  The failure does not stop the
    scheduler: in the ticker loop the error is logged and the remaining
    ticks are served; after a failed first cycle [Start] logs the error
    and, the interval being positive, creates the ticker and serves the
    ticks. *)
Theorem sweep_runs_iff_dump_succeeds (bt : BackupTool) (inp : CycleInput) (w : World) :
  let res := performBackup bt inp w in
  EvRun (dumpCommand bt (nowName inp) (environ w)) ∈ since w res.1 ∧
  (EvReadDir (OutputDir (Backup (config bt))) ∈ since w res.1 ↔
   exitErr (execRes inp) = None) ∧
  (∀ e, exitErr (execRes inp) = Some e →
        res.2 = Some (dumpError inp e) ∧
        since w res.1 = dumpEvents bt inp (environ w)) ∧
  (exitErr (execRes inp) = None → res.2 = None) ∧
  (∀ e rest, exitErr (execRes inp) = Some e →
     tickLoop bt (inp :: rest) w =
     tickLoop bt rest (logger_Print (BackupFailed (dumpError inp e)) res.1)) ∧
  (∀ e ticks, exitErr (execRes inp) = Some e →
     0 < Frequency (Backup (config bt)) →
     Start bt None inp ticks w =
     (tickLoop bt ticks
        (emit (EvNewTicker (Frequency (Backup (config bt))))
           (logger_Print (InitialBackupFailed (dumpError inp e))
              (performBackup bt inp (started bt w)).1)),
      Waiting)).
Proof.
  cbv zeta. destruct (performBackup_events bt inp w) as (_ & _ & H).
  split_and!.
  - destruct (exitErr (execRes inp)) as [e|].
    + destruct H as [_ ->]. unfold dumpEvents. set_solver.
    + destruct H as (_ & evs & warn & -> & _). unfold dumpEvents. set_solver.
  - destruct (exitErr (execRes inp)) as [e|].
    + destruct H as [_ ->]. split; [|done]. unfold dumpEvents. intros Hin.
      repeat (apply elem_of_cons in Hin as [Hin|Hin]; [done|]).
      by apply elem_of_nil in Hin.
    + destruct H as (_ & evs & warn & -> & _). split; [done|]. intros _. set_solver.
  - intros e He. by rewrite He in H.
  - intros He. rewrite He in H. by destruct H.
  - intros e rest He. rewrite He in H. destruct H as [Hr _].
    cbn [tickLoop]. destruct (performBackup bt inp w) as [w1 err].
    cbn [fst snd] in *. by rewrite Hr.
  - intros e ticks He Hf.
    assert (Hpb : ∀ w0, (performBackup bt inp w0).2 = Some (dumpError inp e)).
    { intros w0. destruct (performBackup_events bt inp w0) as (_ & _ & H').
      rewrite He in H'. by destruct H'. }
    unfold Start, started. cbn [os.MkdirAll fst].
    match goal with
    | |- context [performBackup bt inp ?x] =>
        pose proof (Hpb x) as Hr; destruct (performBackup bt inp x) as [w1 err]
    end.
    cbn [fst snd] in *. rewrite Hr.
    destruct (Z.leb_spec (Frequency (Backup (config bt))) 0); [lia|done].
Qed.

(** The claim of C1 fails on the scenario: the dump exits with an error,
    the cycle ends after the run without listing the directory, and the
    entry that is eight days old is still there. *)
Lemma failed_dump_skips_sweep :
  exitErr (execRes scenario.badCycle) = Some "exit status 1" ∧
  since scenario.world (performBackup scenario.bt scenario.badCycle scenario.world).1
    = dumpEvents scenario.bt scenario.badCycle (environ scenario.world) ∧
  (EvReadDir (OutputDir (Backup (config scenario.bt))) ∉
     since scenario.world
       (performBackup scenario.bt scenario.badCycle scenario.world).1) ∧
  files (performBackup scenario.bt scenario.badCycle scenario.world).1
    !! "shop_8.dump" = Some (scenario.aged 8 false None) ∧
  time.Before (modTime (scenario.aged 8 false None))
    (cutoffOf scenario.bt (nowSweep scenario.badCycle)) = true.
Proof.
  split; [reflexivity|]. split; [reflexivity|]. split; [|split; reflexivity].
  intros Hin. apply cycle_event_cases in Hin as [Hin|[Hok _]]; [|done|done].
  unfold dumpEvents in Hin.
  repeat (apply elem_of_cons in Hin as [Hin|Hin]; [done|]).
  by apply elem_of_nil in Hin.
Qed.

(** ** The dump command ([buildPgDumpCommand]) *)

Lemma buildPgDumpCommand_Args bt outputPath :
  exec.Args (buildPgDumpCommand bt outputPath) =
  [ "pg_dump";
    "-h"; Host (Database (config bt));
    "-p"; fmt.itoa (Port (Database (config bt)));
    "-U"; User (Database (config bt));
    "-d"; Name (Database (config bt));
    "--verbose"; "--no-password";
    formatFlag (Format (Backup (config bt)));
    "--file"; outputPath ].
Proof.
  unfold buildPgDumpCommand.
  by destruct (String.eqb (Format (Backup (config bt))) "directory").
Qed.

Lemma buildPgDumpCommand_withPassword pw bt outputPath :
  buildPgDumpCommand (withPassword pw bt) outputPath = buildPgDumpCommand bt outputPath.
Proof. reflexivity. Qed.

(** C3: the password is no part of the argument list of the dump command
    and reaches the child only through its environment.  Whatever password
    [pw] the configuration holds, the one command a cycle runs has the
    argument list built from host, port, user, database name, format and
    output path alone (built the same under any other password) and, as its
    environment, the process environment with [PGPASSWORD=pw] appended. *)
Theorem password_only_in_environment
    (bt : BackupTool) (pw : string) (inp : CycleInput) (w : World) :
  let bt' := withPassword pw bt in
  let outputPath := pathOf bt (filename bt (nowName inp)) in
  (∀ cmd, EvRun cmd ∈ since w (performBackup bt' inp w).1 ↔
          cmd = exec.mkCmd "pg_dump"
                  (exec.Args (buildPgDumpCommand bt outputPath))
                  (environ w ++ ["PGPASSWORD=" +:+ pw])) ∧
  (∀ pw', exec.Args (buildPgDumpCommand (withPassword pw' bt) outputPath) =
          exec.Args (buildPgDumpCommand bt outputPath)) ∧
  exec.Args (buildPgDumpCommand bt outputPath) =
    [ "pg_dump";
      "-h"; Host (Database (config bt));
      "-p"; fmt.itoa (Port (Database (config bt)));
      "-U"; User (Database (config bt));
      "-d"; Name (Database (config bt));
      "--verbose"; "--no-password";
      formatFlag (Format (Backup (config bt)));
      "--file"; outputPath ].
Proof.
  cbv zeta. split; [|split].
  - intros cmd.
    assert (Hcmd : dumpCommand (withPassword pw bt) (nowName inp) (environ w) =
              exec.mkCmd "pg_dump"
                (exec.Args (buildPgDumpCommand bt (pathOf bt (filename bt (nowName inp)))))
                (environ w ++ ["PGPASSWORD=" +:+ pw])).
    { unfold dumpCommand. rewrite buildPgDumpCommand_withPassword.
      unfold buildPgDumpCommand.
      by destruct (String.eqb (Format (Backup (config bt))) "directory"). }
    split.
    + intros Hin. apply cycle_event_cases in Hin; [|done].
      destruct Hin as [Hin|(_ & [H|[H|[e H]]])]; try done.
      unfold dumpEvents in Hin. rewrite Hcmd in Hin.
      repeat (apply elem_of_cons in Hin as [Hin|Hin]; [by simplify_eq|]).
      by apply elem_of_nil in Hin.
    + intros ->. rewrite <- Hcmd.
      destruct (performBackup_events (withPassword pw bt) inp w) as (_ & _ & H).
      destruct (exitErr (execRes inp)).
      * destruct H as [_ ->]. unfold dumpEvents. set_solver.
      * destruct H as (_ & evs & warn & -> & _). unfold dumpEvents. set_solver.
  - intros pw'. by rewrite buildPgDumpCommand_withPassword.
  - apply buildPgDumpCommand_Args.
Qed.

(** C4: the extension of the artifact and the format flag of the dump
    command follow the format exactly: [plain] gives [.sql] and
    [--format=plain], [tar] gives [.tar] and [--format=tar], [directory]
    gives no extension and [--format=directory], and any other value,
    [custom] among them, gives [.dump] and [--format=custom].  The file name
    is the database name, an underscore, the timestamp and that extension,
    and the command carries that flag as its one format argument. *)
Theorem extension_and_flag_follow_format
    (bt : BackupTool) (now : time.Time) (outputPath : string) :
  let format := Format (Backup (config bt)) in
  (format = "plain" ∧ extension format = ".sql" ∧ formatFlag format = "--format=plain" ∨
   format = "tar" ∧ extension format = ".tar" ∧ formatFlag format = "--format=tar" ∨
   format = "directory" ∧ extension format = "" ∧
     formatFlag format = "--format=directory" ∨
   (format ∉ ["plain"; "tar"; "directory"]) ∧ extension format = ".dump" ∧
     formatFlag format = "--format=custom") ∧
  extension "custom" = ".dump" ∧ formatFlag "custom" = "--format=custom" ∧
  filename bt now =
    Name (Database (config bt)) +:+ "_" +:+ timefmt.Format now +:+ extension format ∧
  exec.Args (buildPgDumpCommand bt outputPath) =
    [ "pg_dump";
      "-h"; Host (Database (config bt));
      "-p"; fmt.itoa (Port (Database (config bt)));
      "-U"; User (Database (config bt));
      "-d"; Name (Database (config bt));
      "--verbose"; "--no-password";
      formatFlag format;
      "--file"; outputPath ].
Proof.
  cbv zeta. split; [|split; [done|split; [done|split; [done|]]]].
  - unfold extension, formatFlag.
    destruct (String.eqb_spec (Format (Backup (config bt))) "plain") as [->|H1];
      [by left|].
    destruct (String.eqb_spec (Format (Backup (config bt))) "tar") as [->|H2];
      [by right; left|].
    destruct (String.eqb_spec (Format (Backup (config bt))) "directory") as [->|H3];
      [by right; right; left|].
    right; right; right. split; [|done]. intros Hin.
    repeat (apply elem_of_cons in Hin as [Hin|Hin]; [done|]).
    by apply elem_of_nil in Hin.
  - apply buildPgDumpCommand_Args.
Qed.

(** ** Configuration defaults ([loadConfig]) *)

(** C10: a document that sets [retention_days] to 0 loads to the same
    configuration as the document without that key, with a retention of 7;
    likewise a document that sets [port] to 0 loads like the one without
    it, with port 5432.  No document loads to a retention of 0 or to a port
    of 0. *)
Theorem zero_retention_and_port_read_as_unset (d : yaml.Document) :
  loadConfig (Parsed (withRetentionDays (Some 0) d)) =
    loadConfig (Parsed (withRetentionDays None d)) ∧
  (∃ c, loadConfig (Parsed (withRetentionDays (Some 0) d)) = Ok c ∧
        Retention (Backup c) = 7) ∧
  loadConfig (Parsed (withPort (Some 0) d)) = loadConfig (Parsed (withPort None d)) ∧
  (∃ c, loadConfig (Parsed (withPort (Some 0) d)) = Ok c ∧
        Port (Database c) = 5432) ∧
  (∀ c, loadConfig (Parsed d) = Ok c →
        Retention (Backup c) ≠ 0 ∧ Port (Database c) ≠ 0).
Proof.
  split; [done|]. split; [eexists; split; [reflexivity|]|].
  { cbn. by destruct (String.eqb _ _). }
  split; [done|]. split; [eexists; split; [reflexivity|]|].
  { cbn. by destruct (String.eqb _ _). }
  intros c [= <-]. unfold setDefaults. cbn.
  destruct (yaml.retention_days d) as [r|], (yaml.port d) as [p|]; cbn;
    repeat match goal with
           | |- context [String.eqb ?a ?b] => destruct (String.eqb a b); cbn
           | |- context [Z.eqb ?a ?b] => destruct (Z.eqb_spec a b); cbn
           end; split; (done || lia).
Qed.

(** ** The scheduler ([Start]) *)

Lemma since_trace w w' evs : trace w' = trace w ++ evs → since w w' = evs.
Proof. intros H. unfold since. rewrite H. apply drop_app_length. Qed.

Lemma trace_since w w' evs :
  (∃ l, trace w' = trace w ++ l) → since w w' = evs → trace w' = trace w ++ evs.
Proof. intros [l Hl] <-. by rewrite (since_trace _ _ _ Hl). Qed.

Lemma performBackup_extends bt inp w :
  ∃ l, trace (performBackup bt inp w).1 = trace w ++ l.
Proof.
  unfold performBackup, CombinedOutput, logger_Print.
  set (w2 := match artifact (execRes inp) with Some _ => _ | None => _ end).
  assert (H2 : ∃ l, trace w2 = trace w ++ l).
  { subst w2. destruct (artifact (execRes inp)); cbn; rewrite <- !app_assoc; eauto. }
  destruct H2 as [l2 H2].
  destruct (exitErr (execRes inp)); [by exists l2|].
  set (w3 := emit _ w2).
  destruct (cleanup_events bt (nowSweep inp) (readDirErr inp) w3) as (evs & Ht & _).
  destruct (cleanupOldBackups bt (nowSweep inp) (readDirErr inp) w3) as [w4 err].
  cbn [fst] in *. subst w3. cbn in Ht. rewrite H2, <- !app_assoc in Ht.
  destruct err; cbn; rewrite Ht, <- ?app_assoc; eauto.
Qed.

Lemma cycleStep_spec bt failed inp w :
  environ (cycleStep bt failed inp w) = environ w ∧
  (is_Some (outdir w) → is_Some (outdir (cycleStep bt failed inp w))) ∧
  ∃ evs, trace (cycleStep bt failed inp w) = trace w ++ evs ∧
         cycleOf bt failed (environ w) inp evs.
Proof.
  unfold cycleStep, cycleOf.
  destruct (performBackup_events bt inp w) as (He & Ho & H).
  pose proof (performBackup_extends bt inp w) as Hext.
  destruct (exitErr (execRes inp)) as [e|].
  - destruct H as [-> Hs]. apply (trace_since _ _ _ Hext) in Hs.
    unfold logger_Print, emit. cbn [environ outdir trace].
    rewrite Hs, <- app_assoc. eauto.
  - destruct H as (-> & sw & warn & Hs & Hf & Hw).
    apply (trace_since _ _ _ Hext) in Hs. repeat split; try done.
    eexists. split; [exact Hs|]. eauto.
Qed.

Lemma tickLoop_cons bt inp rest w :
  tickLoop bt (inp :: rest) w = tickLoop bt rest (cycleStep bt BackupFailed inp w).
Proof.
  cbn [tickLoop]. unfold cycleStep.
  by destruct (performBackup bt inp w) as [w1 [err|]].
Qed.

Lemma tickLoop_spec bt ticks : ∀ w,
  environ (tickLoop bt ticks w) = environ w ∧
  (is_Some (outdir w) → is_Some (outdir (tickLoop bt ticks w))) ∧
  ∃ cs, trace (tickLoop bt ticks w) = trace w ++ concat cs ∧
        Forall2 (cycleOf bt BackupFailed (environ w)) ticks cs.
Proof.
  induction ticks as [|inp rest IH]; intros w.
  { repeat split; try done. exists []. cbn. by rewrite app_nil_r. }
  rewrite tickLoop_cons.
  destruct (cycleStep_spec bt BackupFailed inp w) as (He & Ho & evs & Ht & Hc).
  destruct (IH (cycleStep bt BackupFailed inp w)) as (He' & Ho' & cs & Ht' & Hcs).
  split; [congruence|]. split; [tauto|].
  exists (evs :: cs). cbn. rewrite Ht', Ht, <- app_assoc. split; [done|].
  constructor; [done|]. by rewrite <- He.
Qed.

Lemma started_spec bt w :
  environ (started bt w) = environ w ∧
  outdir (started bt w) = Some (files w) ∧
  trace (started bt w) =
    trace w ++ [EvLog StartingTool; EvMkdirAll (OutputDir (Backup (config bt))) 493].
Proof. unfold started. cbn. by rewrite <- app_assoc. Qed.

Lemma Start_unfold bt first ticks w :
  Start bt None first ticks w =
  let w1 := cycleStep bt InitialBackupFailed first (started bt w) in
  if Frequency (Backup (config bt)) <=? 0 then
    (w1, Panicked "non-positive interval for NewTicker")
  else
    (tickLoop bt ticks (emit (EvNewTicker (Frequency (Backup (config bt)))) w1),
     Waiting).
Proof.
  unfold Start, started, cycleStep. cbn [os.MkdirAll fst].
  by destruct (performBackup bt first _) as [w1 [err|]].
Qed.

(** C8: [Start] first makes sure the output directory exists and returns an
    error, having run nothing, only if that fails; otherwise it runs one
    cycle at once, before the ticker is created, and then one cycle for each
    tick delivered, in order, and it never returns: whatever the cycles do,
    it ends up waiting for the next tick.  A cycle whose dump fails is
    followed by the line logging the failure, and the next cycle runs all
    the same. *)
Theorem Start_runs_a_cycle_then_one_per_tick
    (bt : BackupTool) (mkdirFail : option error) (first : CycleInput)
    (ticks : list CycleInput) (w : World) :
  0 < Frequency (Backup (config bt)) →
  let dir := OutputDir (Backup (config bt)) in
  let res := Start bt mkdirFail first ticks w in
  match mkdirFail with
  | Some e =>
      res.2 = Returned (Some ("failed to create output directory: " +:+ e)) ∧
      since w res.1 = [EvLog StartingTool; EvMkdirAll dir 493] ∧
      outdir res.1 = outdir w
  | None =>
      res.2 = Waiting ∧
      is_Some (outdir res.1) ∧
      ∃ c0 cs,
        since w res.1 =
          EvLog StartingTool :: EvMkdirAll dir 493 ::
          c0 ++ EvNewTicker (Frequency (Backup (config bt))) :: concat cs ∧
        cycleOf bt InitialBackupFailed (environ w) first c0 ∧
        Forall2 (cycleOf bt BackupFailed (environ w)) ticks cs
  end.
Proof.
  intros Hf. cbv zeta. destruct mkdirFail as [e|].
  { unfold Start. cbn. repeat split. apply since_trace. cbn.
    by rewrite <- app_assoc. }
  rewrite Start_unfold. cbv zeta.
  destruct (Z.leb_spec (Frequency (Backup (config bt))) 0) as [Hle|_]; [lia|].
  cbn [fst snd].
  destruct (started_spec bt w) as (He0 & Ho0 & Ht0).
  destruct (cycleStep_spec bt InitialBackupFailed first (started bt w))
    as (He1 & Ho1 & c0 & Ht1 & Hc0).
  set (w1 := cycleStep bt InitialBackupFailed first (started bt w)) in *.
  destruct (tickLoop_spec bt ticks
              (emit (EvNewTicker (Frequency (Backup (config bt)))) w1))
    as (He2 & Ho2 & cs & Ht2 & Hcs).
  split; [done|]. split.
  { apply Ho2. cbn. apply Ho1. rewrite Ho0. by eexists. }
  exists c0, cs. split; [|split].
  - apply since_trace. rewrite Ht2. cbn. rewrite Ht1, Ht0.
    by rewrite <- !app_assoc.
  - by rewrite <- He0.
  - cbn in Hcs. by rewrite He1, He0 in Hcs.
Qed.

(** C9: when the configured frequency is zero or negative, [Start] panics
    at the creation of the ticker, after the output directory has been made
    and the initial cycle has run, and it serves no tick.  An omitted
    [frequency] loads as zero, since [loadConfig] has no default for it. *)
Theorem Start_panics_without_positive_frequency
    (bt : BackupTool) (first : CycleInput) (ticks : list CycleInput) (w : World) :
  Frequency (Backup (config bt)) <= 0 →
  let dir := OutputDir (Backup (config bt)) in
  let res := Start bt None first ticks w in
  res.2 = Panicked "non-positive interval for NewTicker" ∧
  is_Some (outdir res.1) ∧
  (∃ c0, since w res.1 = EvLog StartingTool :: EvMkdirAll dir 493 :: c0 ∧
         cycleOf bt InitialBackupFailed (environ w) first c0) ∧
  (∀ d, yaml.frequency d = None →
        ∃ c, loadConfig (Parsed d) = Ok c ∧ Frequency (Backup c) = 0).
Proof.
  intros Hf. cbv zeta. rewrite Start_unfold. cbv zeta.
  destruct (Z.leb_spec (Frequency (Backup (config bt))) 0) as [_|Hlt]; [|lia].
  cbn [fst snd].
  destruct (started_spec bt w) as (He0 & Ho0 & Ht0).
  destruct (cycleStep_spec bt InitialBackupFailed first (started bt w))
    as (He1 & Ho1 & c0 & Ht1 & Hc0).
  split; [done|]. split; [apply Ho1; rewrite Ho0; by eexists|]. split.
  - exists c0. split; [|by rewrite <- He0].
    apply since_trace. rewrite Ht1, Ht0. by rewrite <- !app_assoc.
  - intros d Hd. eexists. split; [reflexivity|]. cbn. rewrite Hd. cbn.
    by destruct (yaml.retention_days d) as [r|]; cbn;
      repeat match goal with
             | |- context [String.eqb ?a ?b] => destruct (String.eqb a b); cbn
             | |- context [Z.eqb ?a ?b] => destruct (Z.eqb a b); cbn
             end.
Qed.

Lemma Start_runs_a_cycle_then_one_per_tick_witness :
  0 < Frequency (Backup (config scenario.bt)) ∧
  (Start scenario.bt None scenario.goodCycle
     [scenario.badCycle; scenario.goodCycle] scenario.world).2 = Waiting ∧
  is_Some (outdir (Start scenario.bt None scenario.goodCycle
                     [scenario.badCycle; scenario.goodCycle] scenario.world).1).
Proof.
  pose proof (Start_runs_a_cycle_then_one_per_tick scenario.bt None
                scenario.goodCycle [scenario.badCycle; scenario.goodCycle]
                scenario.world eq_refl) as H.
  cbv zeta in H. destruct H as (Hres & Hdir & _).
  split; [reflexivity|]. split; [exact Hres|exact Hdir].
Defined.

Lemma Start_panics_without_positive_frequency_witness :
  Frequency (Backup (config unscheduled)) <= 0 ∧
  (Start unscheduled None scenario.goodCycle [scenario.goodCycle] scenario.world).2
    = Panicked "non-positive interval for NewTicker".
Proof.
  assert (Hf : Frequency (Backup (config unscheduled)) <= 0) by (by vm_compute).
  split; [exact Hf|].
  apply (Start_panics_without_positive_frequency unscheduled scenario.goodCycle
           [scenario.goodCycle] scenario.world Hf).
Defined.

(** ** Chronological order of civil times *)
Module chrono.
Import time.
Import calendar.

Lemma daysBeforeYear_succ y :
  daysBeforeYear (y + 1) = daysBeforeYear y + (if isLeap y then 366 else 365).
Proof.
  rewrite !gregorian.daysBeforeYear_closed. unfold isLeap.
  replace (y + 1 - 1) with y by lia.
  destruct (Z.eqb_spec (y mod 4) 0), (Z.eqb_spec (y mod 100) 0),
    (Z.eqb_spec (y mod 400) 0); cbn [andb orb negb];
    Z.div_mod_to_equations; lia.
Qed.

Lemma daysBeforeYear_mono y y' : y <= y' -> daysBeforeYear y <= daysBeforeYear y'.
Proof.
  intros H. rewrite !gregorian.daysBeforeYear_closed. Z.div_mod_to_equations. lia.
Qed.

Lemma absYear_spec d year yd :
  absYear d = (year, yd) ->
  daysBeforeYear year + yd = d /\ 0 <= yd < (if isLeap year then 366 else 365).
Proof.
  intros H.
  destruct (gregorian.absYear_cycles d)
    as (a & b & c & e & yd' & Hy & Hb & Hc & He & Hd & Hyd & H365).
  rewrite H in Hy. injection Hy as -> ->.
  rewrite gregorian.daysBeforeYear_cycles, gregorian.isLeap_cycles by done.
  split; [lia|].
  destruct (Z.eqb_spec e 3), (Z.eqb_spec c 24), (Z.eqb_spec b 3);
    cbn [andb orb negb]; lia.
Qed.

(** Later days have later years, or the same year and a later day in it. *)
Lemma absYear_mono d1 d2 y1 yd1 y2 yd2 :
  absYear d1 = (y1, yd1) -> absYear d2 = (y2, yd2) -> d1 < d2 ->
  y1 < y2 \/ y1 = y2 /\ yd1 < yd2.
Proof.
  intros H1 H2 Hlt.
  apply absYear_spec in H1 as [Hd1 Hr1]. apply absYear_spec in H2 as [Hd2 Hr2].
  destruct (Z.lt_trichotomy y1 y2) as [Hy|[Hy|Hy]]; [by left|right; subst; lia|].
  exfalso.
  pose proof (daysBeforeYear_mono (y2 + 1) y1 ltac:(lia)) as Hm.
  rewrite daysBeforeYear_succ in Hm.
  destruct (isLeap y1), (isLeap y2); lia.
Qed.

Lemma monthDay_step_all (leap : bool) yd :
  0 <= yd < (if leap then 365 else 364) -> monthDay_step leap yd = true.
Proof.
  destruct leap; intros H.
  - apply (gregorian.forall_below (monthDay_step true) 365); [by vm_compute | lia].
  - apply (gregorian.forall_below (monthDay_step false) 364); [by vm_compute | lia].
Qed.

Lemma monthDayKey_mono (leap : bool) yd1 yd2 :
  0 <= yd1 -> yd1 < yd2 -> yd2 < (if leap then 366 else 365) ->
  monthDayKey leap yd1 < monthDayKey leap yd2.
Proof.
  intros H0 Hlt Hhi.
  assert (Hind : forall n : nat,
            yd1 + 1 + Z.of_nat n < (if leap then 366 else 365) ->
            monthDayKey leap yd1 < monthDayKey leap (yd1 + 1 + Z.of_nat n)).
  { induction n as [|n IH]; intros Hn.
    - replace (yd1 + 1 + Z.of_nat 0) with (yd1 + 1) by lia.
      apply Z.ltb_lt. apply (monthDay_step_all leap yd1).
      destruct leap; lia.
    - etrans; [apply IH; lia|].
      replace (yd1 + 1 + Z.of_nat (S n)) with (yd1 + 1 + Z.of_nat n + 1) by lia.
      apply Z.ltb_lt. apply (monthDay_step_all leap (yd1 + 1 + Z.of_nat n)).
      destruct leap; lia. }
  replace yd2 with (yd1 + 1 + Z.of_nat (Z.to_nat (yd2 - yd1 - 1))) by lia.
  apply Hind. lia.
Qed.

Lemma civilKey_mono a1 a2 : a1 < a2 -> civilKey a1 < civilKey a2.
Proof.
  intros Hlt. unfold civilKey, absDate.
  destruct (gregorian.absYear_yearDay (a1 / secondsPerDay))
    as (y1 & yd1 & m1 & dd1 & Hy1 & Hmd1 & Hr1 & Hm1 & Hdd1 & _).
  destruct (gregorian.absYear_yearDay (a2 / secondsPerDay))
    as (y2 & yd2 & m2 & dd2 & Hy2 & Hmd2 & Hr2 & Hm2 & Hdd2 & _).
  rewrite Hy1, Hy2, Hmd1, Hmd2.
  destruct (gregorian.absClock_spec a1) as (h1 & mi1 & s1 & -> & Hh1 & Hmi1 & Hs1 & Hc1).
  destruct (gregorian.absClock_spec a2) as (h2 & mi2 & s2 & -> & Hh2 & Hmi2 & Hs2 & Hc2).
  unfold secondsPerDay in *.
  destruct (Z.eq_dec (a1 / 86400) (a2 / 86400)) as [Heq|Hne].
  - rewrite Heq, Hy2 in Hy1. injection Hy1 as <- <-.
    rewrite Hmd2 in Hmd1. injection Hmd1 as <- <-.
    assert (a1 mod 86400 < a2 mod 86400)
      by (Z.div_mod_to_equations; lia).
    lia.
  - assert (Hd : a1 / 86400 < a2 / 86400) by (Z.div_mod_to_equations; lia).
    destruct (absYear_mono _ _ _ _ _ _ Hy1 Hy2 Hd) as [Hy|[<- Hyd]]; [nia|].
    pose proof (monthDayKey_mono (isLeap y1) yd1 yd2 ltac:(lia) Hyd ltac:(lia)) as Hk.
    unfold monthDayKey in Hk. rewrite Hmd1, Hmd2 in Hk. lia.
Qed.

End chrono.

(** ** Lexicographic order of file names *)
Module lexico.

Lemma app_cons c (s t : string) : String c s +:+ t = String c (s +:+ t).
Proof. reflexivity. Qed.

Lemma app_nil (t : string) : "" +:+ t = t.
Proof. reflexivity. Qed.

Lemma compare_String c1 s1 c2 s2 :
  String.compare (String c1 s1) (String c2 s2) =
  lex (Ascii.compare c1 c2) (String.compare s1 s2).
Proof. cbn [String.compare]. by destruct (Ascii.compare c1 c2). Qed.

Lemma ascii_compare_refl c : Ascii.compare c c = Eq.
Proof. unfold Ascii.compare. apply N.compare_refl. Qed.

Lemma compare_same_head c s t :
  String.compare (String c s) (String c t) = String.compare s t.
Proof. by rewrite compare_String, ascii_compare_refl. Qed.

Lemma compare_same_prefix p s t :
  String.compare (p +:+ s) (p +:+ t) = String.compare s t.
Proof.
  induction p as [|c p IH]; [done|].
  by rewrite !app_cons, compare_same_head.
Qed.

Lemma digit_compare x y :
  0 <= x <= 9 -> 0 <= y <= 9 ->
  Ascii.compare (fmt.digit x) (fmt.digit y) = (x ?= y).
Proof.
  intros Hx Hy. unfold Ascii.compare, fmt.digit.
  rewrite !N_ascii_embedding by lia.
  rewrite <- N2Z.inj_compare, !N2Z.inj_add, !Z2N.id by lia.
  apply Z.add_compare_mono_l.
Qed.

Lemma appendInt_2 x :
  0 <= x < 100 ->
  fmt.appendInt x 2 = String (fmt.digit (x / 10)) (String (fmt.digit (x mod 10)) "").
Proof.
  intros H. unfold fmt.appendInt.
  destruct (Z.ltb_spec x 0); [lia|]. rewrite Z.abs_eq by lia.
  cbn [Z.eqb Pos.eqb andb].
  destruct (Z.ltb_spec x 100); [|lia]. reflexivity.
Qed.

Lemma appendInt_4 x :
  0 <= x < 10000 ->
  fmt.appendInt x 4 =
  String (fmt.digit (x / 100 / 10)) (String (fmt.digit ((x / 100) mod 10))
    (String (fmt.digit (x mod 100 / 10)) (String (fmt.digit ((x mod 100) mod 10)) ""))).
Proof.
  intros H. unfold fmt.appendInt.
  destruct (Z.ltb_spec x 0); [lia|]. rewrite Z.abs_eq by lia.
  cbn [Z.eqb Pos.eqb andb].
  destruct (Z.ltb_spec x 10000); [|lia]. reflexivity.
Qed.

(** Two-digit fields compare as the numbers they print. *)
Lemma compare_appendInt_2 a b s t :
  0 <= a < 100 -> 0 <= b < 100 ->
  String.compare (fmt.appendInt a 2 +:+ s) (fmt.appendInt b 2 +:+ t) =
  lex (a ?= b) (String.compare s t).
Proof.
  intros Ha Hb. rewrite !appendInt_2 by done.
  rewrite !app_cons, !app_nil, !compare_String.
  rewrite !digit_compare by (Z.div_mod_to_equations; lia).
  destruct (Z.compare_spec (a / 10) (b / 10)),
           (Z.compare_spec (a mod 10) (b mod 10)),
           (Z.compare_spec a b);
    cbn [lex]; try reflexivity; exfalso; Z.div_mod_to_equations; lia.
Qed.

(** Four-digit fields compare as the numbers they print. *)
Lemma compare_appendInt_4 a b s t :
  0 <= a < 10000 -> 0 <= b < 10000 ->
  String.compare (fmt.appendInt a 4 +:+ s) (fmt.appendInt b 4 +:+ t) =
  lex (a ?= b) (String.compare s t).
Proof.
  intros Ha Hb. rewrite !appendInt_4 by done.
  rewrite !app_cons, !app_nil, !compare_String.
  rewrite !digit_compare by (Z.div_mod_to_equations; lia).
  destruct (Z.compare_spec (a / 100 / 10) (b / 100 / 10)),
           (Z.compare_spec ((a / 100) mod 10) ((b / 100) mod 10)),
           (Z.compare_spec (a mod 100 / 10) (b mod 100 / 10)),
           (Z.compare_spec ((a mod 100) mod 10) ((b mod 100) mod 10)),
           (Z.compare_spec a b);
    cbn [lex]; try reflexivity; exfalso; Z.div_mod_to_equations; lia.
Qed.

End lexico.

(** ** Artifact names in time order *)

Lemma abs_lt t1 t2 :
  time.unixSec t1 < time.unixSec t2 →
  time.zoneOffset (time.loc t1) (time.unixSec t1) <=
    time.zoneOffset (time.loc t2) (time.unixSec t2) →
  time.abs t1 < time.abs t2.
Proof. unfold time.abs. lia. Qed.

(** The fields of a civil reading are in range. *)
Lemma civil_fields a :
  ∃ year month day hour min sec,
    time.absDate a = (year, month, day) ∧ time.absClock a = (hour, min, sec) ∧
    1 <= month <= 12 ∧ 1 <= day <= 31 ∧
    0 <= hour < 24 ∧ 0 <= min < 60 ∧ 0 <= sec < 60.
Proof.
  unfold time.absDate.
  destruct (gregorian.absYear_yearDay (a / time.secondsPerDay))
    as (y & yd & m & d & -> & -> & _ & Hm & Hd & _).
  destruct (gregorian.absClock_spec a) as (h & mi & s & -> & Hh & Hmi & Hs & _).
  by exists y, m, d, h, mi, s.
Qed.

(** Timestamps of four-digit years compare as the civil readings they
    print. *)
Lemma Format_compare t1 t2 (s1 s2 : string) :
  0 <= Year t1 <= 9999 → 0 <= Year t2 <= 9999 →
  calendar.civilKey (time.abs t1) < calendar.civilKey (time.abs t2) →
  String.compare (timefmt.Format t1 +:+ s1) (timefmt.Format t2 +:+ s2) = Lt.
Proof.
  unfold Year, timefmt.Format, time.Date_of, time.Clock, calendar.civilKey.
  destruct (civil_fields (time.abs t1))
    as (y1 & m1 & d1 & h1 & mi1 & c1 & -> & -> & Hm1 & Hd1 & Hh1 & Hmi1 & Hc1).
  destruct (civil_fields (time.abs t2))
    as (y2 & m2 & d2 & h2 & mi2 & c2 & -> & -> & Hm2 & Hd2 & Hh2 & Hmi2 & Hc2).
  cbn [fst]. intros Hy1 Hy2 Hkey.
  rewrite !str.app_assoc, ?lexico.app_cons, ?lexico.app_nil.
  rewrite lexico.compare_appendInt_4 by lia.
  do 5 (rewrite lexico.compare_same_head, lexico.compare_appendInt_2 by lia).
  destruct (Z.compare_spec y1 y2); cbn [lex]; [subst|done|lia].
  destruct (Z.compare_spec m1 m2); cbn [lex]; [subst|done|lia].
  destruct (Z.compare_spec d1 d2); cbn [lex]; [subst|done|lia].
  destruct (Z.compare_spec h1 h2); cbn [lex]; [subst|done|lia].
  destruct (Z.compare_spec mi1 mi2); cbn [lex]; [subst|done|lia].
  destruct (Z.compare_spec c1 c2); cbn [lex]; [lia|done|lia].
Qed.

Lemma Year_mono t1 t2 :
  time.abs t1 <= time.abs t2 → Year t1 <= Year t2.
Proof.
  intros Hle. unfold Year, time.Date_of, time.absDate.
  destruct (gregorian.absYear_yearDay (time.abs t1 / time.secondsPerDay))
    as (y1 & yd1 & m1 & d1 & Hy1 & Hmd1 & _).
  destruct (gregorian.absYear_yearDay (time.abs t2 / time.secondsPerDay))
    as (y2 & yd2 & m2 & d2 & Hy2 & Hmd2 & _).
  rewrite Hy1, Hy2, Hmd1, Hmd2. cbn [fst].
  destruct (Z.eq_dec (time.abs t1 / time.secondsPerDay)
                     (time.abs t2 / time.secondsPerDay)) as [Heq|Hne].
  - rewrite Heq, Hy2 in Hy1. injection Hy1 as -> _. lia.
  - assert (Hd : time.abs t1 / time.secondsPerDay < time.abs t2 / time.secondsPerDay).
    { unfold time.secondsPerDay in *. Z.div_mod_to_equations. lia. }
    destruct (chrono.absYear_mono _ _ _ _ _ _ Hy1 Hy2 Hd); lia.
Qed.

Lemma compare_refl_string (s : string) : String.compare s s = Eq.
Proof. induction s as [|c s IH]; [done|]. by rewrite lexico.compare_same_head. Qed.

Lemma filename_compare_abs bt t1 t2 :
  0 <= Year t1 → Year t2 <= 9999 → time.abs t1 < time.abs t2 →
  String.compare (filename bt t1) (filename bt t2) = Lt.
Proof.
  intros Hlo Hhi Habs.
  pose proof (Year_mono t1 t2 ltac:(lia)) as Hy.
  unfold filename.
  rewrite lexico.compare_same_prefix.
  rewrite ?lexico.app_cons, ?lexico.app_nil, lexico.compare_same_head.
  apply Format_compare; [lia|lia|].
  by apply chrono.civilKey_mono.
Qed.

(** C7, as the code has it: what orders the names is the local clock.
    With local years of four digits, the name made at [t1] sorts strictly
    before the name the same tool makes at [t2] if and only if the local
    clock reads an earlier second at [t1] than at [t2] ([time.abs]: Unix
    seconds plus the offset from UTC in force).  For instants [t1 < t2]
    that is so unless the clock has been set back between them by the time
    elapsed or more: always where the offset in force has not decreased (a
    location with a fixed offset, winter to summer), and also from summer
    to winter for instants further apart than the set-back. *)
Theorem filenames_sort_in_time_order (bt : BackupTool) (t1 t2 : time.Time) :
  (0 <= Year t1 → Year t2 <= 9999 → time.abs t1 < time.abs t2 →
   String.compare (filename bt t1) (filename bt t2) = Lt) ∧
  (0 <= Year t2 → Year t1 <= 9999 →
   String.compare (filename bt t1) (filename bt t2) = Lt →
   time.abs t1 < time.abs t2) ∧
  (time.abs t1 < time.abs t2 ↔
   time.zoneOffset (time.loc t1) (time.unixSec t1) -
     time.zoneOffset (time.loc t2) (time.unixSec t2)
   < time.unixSec t2 - time.unixSec t1) ∧
  (0 <= Year t1 → Year t2 <= 9999 → time.unixSec t1 < time.unixSec t2 →
   time.zoneOffset (time.loc t1) (time.unixSec t1) <=
     time.zoneOffset (time.loc t2) (time.unixSec t2) →
   String.compare (filename bt t1) (filename bt t2) = Lt).
Proof.
  split; [apply filename_compare_abs|]. split; [|split].
  - intros Hlo Hhi Hlt.
    destruct (Z.lt_trichotomy (time.abs t1) (time.abs t2)) as [H|[H|H]]; [done|..].
    + assert (Heq : filename bt t1 = filename bt t2).
      { unfold filename, timefmt.Format, time.Date_of, time.Clock. by rewrite H. }
      rewrite Heq, compare_refl_string in Hlt. done.
    + pose proof (filename_compare_abs bt t2 t1 Hlo Hhi H) as Hc.
      rewrite String.compare_antisym, Hc in Hlt. done.
  - unfold time.abs. lia.
  - intros Hlo Hhi Hsec Hoff. apply filename_compare_abs; [done..|].
    by apply abs_lt.
Qed.

Lemma filenames_sort_in_time_order_witness :
  (0 <= Year (time.mkTime 1719835200 0 New_York) ∧
   Year (time.mkTime 1733054400 0 New_York) <= 9999 ∧
   time.zoneOffset New_York 1733054400 < time.zoneOffset New_York 1719835200 ∧
   time.abs (time.mkTime 1719835200 0 New_York)
     < time.abs (time.mkTime 1733054400 0 New_York)) ∧
  filename scenario.bt (time.mkTime 1719835200 0 New_York)
    = "shop_2024-07-01_08-00-00.dump" ∧
  filename scenario.bt (time.mkTime 1733054400 0 New_York)
    = "shop_2024-12-01_07-00-00.dump" ∧
  String.compare (filename scenario.bt (time.mkTime 1719835200 0 New_York))
    (filename scenario.bt (time.mkTime 1733054400 0 New_York)) = Lt.
Proof.
  assert (H1 : 0 <= Year (time.mkTime 1719835200 0 New_York)) by (by vm_compute).
  assert (H2 : Year (time.mkTime 1733054400 0 New_York) <= 9999) by (by vm_compute).
  assert (H3 : time.abs (time.mkTime 1719835200 0 New_York)
               < time.abs (time.mkTime 1733054400 0 New_York)) by (by vm_compute).
  split; [split_and!; done|]. split; [reflexivity|]. split; [reflexivity|].
  destruct (filenames_sort_in_time_order scenario.bt
              (time.mkTime 1719835200 0 New_York)
              (time.mkTime 1733054400 0 New_York)) as [H _].
  exact (H H1 H2 H3).
Defined.

(** The claim of C7 fails where the local clock is set back: in New York,
    at the end of daylight saving time in 2024, the name made at 05:59:59
    UTC (01:59:59 local) sorts after the name made one second later
    (01:00:00 local). *)
Lemma fall_back_reverses_names :
  time.unixSec (time.mkTime 1730613599 0 New_York)
    < time.unixSec (time.mkTime 1730613600 0 New_York) ∧
  filename scenario.bt (time.mkTime 1730613599 0 New_York)
    = "shop_2024-11-03_01-59-59.dump" ∧
  filename scenario.bt (time.mkTime 1730613600 0 New_York)
    = "shop_2024-11-03_01-00-00.dump" ∧
  String.compare (filename scenario.bt (time.mkTime 1730613599 0 New_York))
                 (filename scenario.bt (time.mkTime 1730613600 0 New_York)) = Gt.
Proof. repeat split; by vm_compute. Qed.

(** Nor does it hold past the year 9999, where the year takes five
    digits. *)
Lemma five_digit_year_reverses_names :
  time.unixSec (time.mkTime 253402300799 0 time.UTC)
    < time.unixSec (time.mkTime 253402300800 0 time.UTC) ∧
  filename scenario.bt (time.mkTime 253402300799 0 time.UTC)
    = "shop_9999-12-31_23-59-59.dump" ∧
  filename scenario.bt (time.mkTime 253402300800 0 time.UTC)
    = "shop_10000-01-01_00-00-00.dump" ∧
  String.compare (filename scenario.bt (time.mkTime 253402300799 0 time.UTC))
                 (filename scenario.bt (time.mkTime 253402300800 0 time.UTC)) = Gt.
Proof. repeat split; by vm_compute. Qed.

(** * Further properties of the code *)

(** ** Loading the configuration ([loadConfig], [NewBackupTool]) *)

(** X1: [loadConfig] checks no value.  Every parsed document loads; a key
    set to a value other than the zero value is taken as it is, also a
    negative port or retention and an unknown format; host and format are
    never empty afterwards; name, user, password, output directory,
    frequency and the logging keys have no default and are the zero value
    when left out; and applying the defaults again changes nothing. *)
Theorem loadConfig_checks_nothing (d : yaml.Document) :
  ∃ c, loadConfig (Parsed d) = Ok c ∧
    (∀ h, yaml.host d = Some h → h ≠ "" → Host (Database c) = h) ∧
    (∀ p, yaml.port d = Some p → p ≠ 0 → Port (Database c) = p) ∧
    (∀ f, yaml.format d = Some f → f ≠ "" → Format (Backup c) = f) ∧
    (∀ r, yaml.retention_days d = Some r → r ≠ 0 → Retention (Backup c) = r) ∧
    Host (Database c) ≠ "" ∧ Format (Backup c) ≠ "" ∧
    Name (Database c) = default "" (yaml.name d) ∧
    User (Database c) = default "" (yaml.user d) ∧
    Password (Database c) = default "" (yaml.password d) ∧
    OutputDir (Backup c) = default "" (yaml.output_dir d) ∧
    Frequency (Backup c) = default 0 (yaml.frequency d) ∧
    Level (Logging c) = default "" (yaml.level d) ∧
    FilePath (Logging c) = default "" (yaml.file_path d) ∧
    setDefaults c = c.
Proof.
  eexists. split; [reflexivity|].
  split; [|split; [|split; [|split]]].
  1-4: intros x Hx Hne; destruct d; cbn in Hx; subst; unfold setDefaults; cbn;
       eqb_cases; congruence.
  split; [|split].
  1-2: destruct d; unfold setDefaults; cbn; eqb_cases; congruence.
  repeat split; destruct d; unfold setDefaults; cbn; eqb_cases; congruence.
Qed.

(** ** Start-up ([main], [setupLogger]) *)

(** X2: [main] exits with status 1 exactly when it is given no argument or
    the configuration cannot be loaded, and then it has touched nothing: the
    world is as it was, no log file was opened and no logger made (a log
    file that cannot be opened never has this effect).  Without an argument
    it prints the usage line; a configuration that cannot be read or parsed
    is reported on standard error with the whole chain of messages. *)
Theorem main_exits_1_before_any_effect
    (args : list string) (readConfig : string → ConfigFile)
    (openFail mkdirFail : option error) (first : CycleInput)
    (ticks : list CycleInput) (w : World) :
  let p := main args readConfig openFail mkdirFail first ticks w in
  (p_exit p = ExitCode 1 ↔
   (length args < 2)%nat ∨ ∃ e, loadConfig (readConfig (nth 1 args "")) = Err e) ∧
  (p_exit p = ExitCode 1 →
   p_world p = w ∧ p_opened p = [] ∧ p_logger p = None) ∧
  ((length args < 2)%nat →
   p_stdout p = ["Usage: beackup <config-file>"] ∧ p_stderr p = []) ∧
  (∀ e, (2 <= length args)%nat → readConfig (nth 1 args "") = Unreadable e →
        p_stdout p = [] ∧
        p_stderr p = ["Failed to create backup tool: failed to load config: failed to read config file: " +:+ e]) ∧
  (∀ e, (2 <= length args)%nat → readConfig (nth 1 args "") = Malformed e →
        p_stdout p = [] ∧
        p_stderr p = ["Failed to create backup tool: failed to load config: failed to parse config: " +:+ e]).
Proof.
  cbv zeta. unfold main.
  destruct (Nat.ltb_spec (length args) 2) as [Hlt|Hge].
  { cbn. split; [split; [by left|done]|].
    repeat split; intros; simplify_eq; (done || lia). }
  unfold NewBackupTool.
  destruct (readConfig (nth 1 args "")) as [e|e|d] eqn:Hrc; cbn [loadConfig].
  - cbn. split; [split; [right; by eexists|done]|].
    repeat split; intros; simplify_eq; (done || lia).
  - cbn. split; [split; [right; by eexists|done]|].
    repeat split; intros; simplify_eq; (done || lia).
  - destruct (setupLogger _ openFail) as [[lg op] nt].
    destruct (Start _ mkdirFail first ticks w) as [w' [r|m|]]; cbn;
      (split; [split; [done|intros [?|[e [=]]]; lia]|]);
      repeat split; intros; simplify_eq; (done || lia).
Qed.

(** X3: once the configuration is loaded, [main] exits with status 0 exactly
    when the output directory cannot be created: it drops the error [Start]
    returns.  The process then ends having logged the start-up line and
    called [MkdirAll] and nothing else, and the error appears neither in the
    log nor on standard output or standard error (which carries at most
    the notice about the log file). *)
Theorem main_drops_the_error_of_Start
    (args : list string) (readConfig : string → ConfigFile)
    (openFail mkdirFail : option error) (first : CycleInput)
    (ticks : list CycleInput) (w : World) (d : yaml.Document) :
  (2 <= length args)%nat → readConfig (nth 1 args "") = Parsed d →
  let p := main args readConfig openFail mkdirFail first ticks w in
  ∃ c, loadConfig (Parsed d) = Ok c ∧
    (p_exit p = ExitCode 0 ↔ is_Some mkdirFail) ∧
    (is_Some mkdirFail →
     p_stdout p = [] ∧
     p_stderr p = (setupLogger c openFail).2 ∧
     since w (p_world p) = [EvLog StartingTool; EvMkdirAll (OutputDir (Backup c)) 493]).
Proof.
  intros Hlen Hrc. cbv zeta. eexists. split; [reflexivity|].
  unfold main. destruct (Nat.ltb_spec (length args) 2) as [Hlt|_]; [lia|].
  rewrite Hrc. unfold NewBackupTool. cbn [loadConfig config].
  destruct (setupLogger _ openFail) as [[lg op] nt].
  destruct mkdirFail as [e|].
  - unfold Start. cbn. split; [done|]. intros _. repeat split.
    apply since_trace. cbn. by rewrite <- app_assoc.
  - rewrite Start_unfold. cbv zeta.
    destruct (_ <=? 0); cbn; (split; [split; [done|by intros [? [=]]]|by intros [? [=]]]).
Qed.

Lemma main_drops_the_error_of_Start_witness :
  ((2 <= length ["beackup"; "backup.yaml"])%nat ∧
   (λ _ : string, Parsed scenario.document) (nth 1 ["beackup"; "backup.yaml"] "")
     = Parsed scenario.document) ∧
  p_exit (main ["beackup"; "backup.yaml"] (λ _, Parsed scenario.document) None
            (Some "permission denied") scenario.goodCycle [] scenario.world)
    = ExitCode 0.
Proof.
  destruct (main_drops_the_error_of_Start ["beackup"; "backup.yaml"]
              (λ _, Parsed scenario.document) None (Some "permission denied")
              scenario.goodCycle [] scenario.world scenario.document
              ltac:(cbn; lia) eq_refl) as (c & _ & Hexit & _).
  split; [split; [cbn; lia|reflexivity]|].
  apply Hexit. by eexists.
Defined.

(** X4: [setupLogger] never fails and never truncates.  It opens a file
    exactly when a log file is configured, and then that file only, once,
    created if missing with mode 0666 and opened for appending, never
    truncated; the logger writes to that file when it could be opened, and
    to standard output when none is configured or it could not be opened,
    in which case one notice with the error is printed. *)
Theorem setupLogger_appends_or_falls_back (c : Config) (openFail : option error) :
  let path := FilePath (Logging c) in
  let lg := (setupLogger c openFail).1.1 in
  let opened := (setupLogger c openFail).1.2 in
  let notices := (setupLogger c openFail).2 in
  (out lg = LogFile path ↔ path ≠ "" ∧ openFail = None) ∧
  (out lg = Stdout ↔ path = "" ∨ is_Some openFail) ∧
  (opened = [] ↔ path = "") ∧
  (length opened <= 1)%nat ∧
  (∀ call, call ∈ opened →
     openPath call = path ∧ openPerm call = 6 * 64 + 6 * 8 + 6 ∧
     Z.land (openFlag call) O_TRUNC = 0 ∧
     Z.land (openFlag call) O_APPEND = O_APPEND ∧
     Z.land (openFlag call) O_CREATE = O_CREATE) ∧
  (path ≠ "" → ∀ e, openFail = Some e →
     notices = ["Failed to open log file, using stdout: " +:+ e]) ∧
  (path = "" ∨ openFail = None → notices = []) ∧
  prefix lg = "[BACKUP] " ∧ flag lg = Z.lor LstdFlags Lshortfile.
Proof.
  cbv zeta. unfold setupLogger.
  destruct (String.eqb_spec (FilePath (Logging c)) "") as [He|Hne];
    [|destruct openFail as [e|]]; cbn; split_and!;
    try done; try lia;
    try (by intros call Hin; first [apply elem_of_nil in Hin
                                   |apply list_elem_of_singleton in Hin; subst]);
    try (by intros; simplify_eq);
    try (split; [done|]);
    try (by intros [?|[? ?]]); try (by intros [? ?]);
    try (by intros; left); try (by intros; right; eexists);
    try (by intros [?|?]).
  - split; [intros _; by left|done].
  - split; [intros _; right; by eexists|done].
Qed.

(** What [Start] reads of the configuration: the database and backup
    sections. *)
Lemma sweep_sections bt1 bt2 cutoff entries :
  Backup (config bt1) = Backup (config bt2) →
  ∀ w, sweep bt1 cutoff entries w = sweep bt2 cutoff entries w.
Proof.
  intros Hb. induction entries as [|e es IH]; intros w; [done|].
  cbn [sweep]. rewrite Hb. destruct (os.IsDir e); [done|].
  destruct (os.Info _ e w) as [w1 [info|err]]; [|done].
  destruct (time.Before _ _); [|done].
  destruct (os.Remove _ _ w1) as [w2 [err|]]; apply IH.
Qed.

Lemma performBackup_sections bt1 bt2 inp w :
  Database (config bt1) = Database (config bt2) →
  Backup (config bt1) = Backup (config bt2) →
  performBackup bt1 inp w = performBackup bt2 inp w.
Proof.
  intros Hd Hb.
  unfold performBackup, cleanupOldBackups, filename, buildPgDumpCommand.
  rewrite Hd, Hb. cbv zeta.
  destruct (CombinedOutput _ _ _ _) as [w1 [o [err|]]]; [done|].
  destruct (os.ReadDir _ _ _) as [w2 [entries|err]]; [|done].
  by rewrite (sweep_sections bt1 bt2 _ _ Hb).
Qed.

Lemma tickLoop_sections bt1 bt2 ticks :
  Database (config bt1) = Database (config bt2) →
  Backup (config bt1) = Backup (config bt2) →
  ∀ w, tickLoop bt1 ticks w = tickLoop bt2 ticks w.
Proof.
  intros Hd Hb. induction ticks as [|inp rest IH]; intros w; [done|].
  cbn [tickLoop]. rewrite (performBackup_sections bt1 bt2 _ _ Hd Hb).
  destruct (performBackup bt2 inp w) as [w1 [err|]]; apply IH.
Qed.

Lemma Start_sections bt1 bt2 mkdirFail first ticks w :
  Database (config bt1) = Database (config bt2) →
  Backup (config bt1) = Backup (config bt2) →
  Start bt1 mkdirFail first ticks w = Start bt2 mkdirFail first ticks w.
Proof.
  intros Hd Hb. unfold Start. rewrite Hb.
  destruct (os.MkdirAll _ _ _ _) as [w1 [err|]]; [done|].
  rewrite (performBackup_sections bt1 bt2 _ _ Hd Hb).
  destruct (performBackup bt2 first w1) as [w2 err].
  destruct (_ <=? 0); [done|].
  by rewrite (tickLoop_sections bt1 bt2 _ Hd Hb).
Qed.

(** X5: the logging level is never read.  Whatever the [level] key of the
    configuration file says, or whether it is there at all, the whole run
    of [main] is the same: the same output, the same logger and log file,
    the same calls and log lines, the same end. *)
Theorem logging_level_is_never_read
    (v : option string) (args : list string) (readConfig : string → ConfigFile)
    (openFail mkdirFail : option error) (first : CycleInput)
    (ticks : list CycleInput) (w : World) :
  main args (λ path, relevel v (readConfig path)) openFail mkdirFail first ticks w =
  main args readConfig openFail mkdirFail first ticks w.
Proof.
  unfold main. destruct (length args <? 2)%nat; [done|].
  destruct (readConfig (nth 1 args "")) as [e|e|d]; [done|done|].
  unfold relevel, NewBackupTool. cbn [loadConfig config].
  set (c1 := setDefaults (yaml.Unmarshal (withLevel v d) zeroConfig)).
  set (c2 := setDefaults (yaml.Unmarshal d zeroConfig)).
  assert (Hd : Database c1 = Database c2) by (by destruct d).
  assert (Hb : Backup c1 = Backup c2) by (by destruct d).
  assert (Hl : setupLogger c1 openFail = setupLogger c2 openFail).
  { unfold setupLogger.
    replace (FilePath (Logging c1)) with (FilePath (Logging c2)) by (by destruct d).
    done. }
  by rewrite Hl, (Start_sections (mkBackupTool c1) (mkBackupTool c2) _ _ _ _ Hd Hb).
Qed.

(** ** More on the retention sweep ([cleanupOldBackups]) *)

Lemma foldl_visit_subseteq cutoff (m0 : gmap string Node) entries : ∀ m,
  foldl (visit cutoff m0) m entries ⊆ m.
Proof.
  induction entries as [|e es IH]; intros m; [done|].
  cbn. etrans; [apply IH|]. unfold visit.
  destruct (unlinked cutoff m0 e); [apply delete_subseteq|done].
Qed.

Lemma files_mk env (m : gmap string Node) tr : files (mkWorld env (Some m) tr) = m.
Proof. reflexivity. Qed.

(** The three shapes of a sweep: the directory could not be listed, or it
    was listed and the loop ran over it. *)
Lemma cleanup_cases bt now fail w :
  (cleanupOldBackups bt now fail w).1 = emit (EvReadDir (OutputDir (Backup (config bt)))) w ∧
    is_Some (cleanupOldBackups bt now fail w).2 ∧ (is_Some fail ∨ outdir w = None) ∨
  fail = None ∧ outdir w = Some (files w) ∧
    cleanupOldBackups bt now fail w =
    (mkWorld (environ w)
       (Some (foldl (visit (cutoffOf bt now) (files w)) (files w) (os.listing (files w))))
       (trace w ++ EvReadDir (OutputDir (Backup (config bt))) ::
          flat_map (entryEvents bt (cutoffOf bt now) (files w)) (os.listing (files w))),
     None).
Proof.
  destruct fail as [e|].
  { left. rewrite cleanup_failed_listing. cbn. eauto. }
  destruct (outdir w) as [m|] eqn:Ho.
  - right. unfold files. rewrite Ho. cbn [default]. split; [done|]. split; [done|].
    by apply cleanup_spec.
  - left. unfold cleanupOldBackups, os.ReadDir. cbn. rewrite Ho. cbn. eauto.
Qed.

Lemma entry_unique m (e : os.DirEntry) name (node : Node) :
  e ∈ os.listing m → os.Name_ e = name → m !! name = Some node →
  e = os.mkDirEntry name (isDir node).
Proof.
  intros He <- Hn. apply elem_of_listing in He as (node' & Hn' & Hd).
  rewrite Hn in Hn'. injection Hn' as <-. destruct e. cbn in *. by subst.
Qed.

(** What the sweep does to an entry that is no directory and can be
    inspected. *)
Lemma entry_fate bt now w name node :
  files w !! name = Some node → isDir node = false → statErr node = None →
  (EvRemove (pathOf bt name) ∈ since w (cleanupOldBackups bt now None w).1 ↔
   time.Before (modTime node) (cutoffOf bt now) = true) ∧
  (files (cleanupOldBackups bt now None w).1 !! name =
   if time.Before (modTime node) (cutoffOf bt now) && bool_decide (removeErr node = None)
   then None else Some node).
Proof.
  intros Hn Hd Hs.
  pose proof (files_lookup_Some _ _ _ Hn) as Hm.
  rewrite (cleanup_since bt now w _ Hm), (cleanup_files bt now w _ Hm).
  split.
  - split.
    + intros H. apply elem_of_cons in H as [H|H]; [done|].
      apply remove_event_inv in H as (node' & Hn' & _ & _ & Hb).
      rewrite Hn in Hn'. by injection Hn' as <-.
    + intros Hb. right.
      apply (remove_event_intro bt _ _ _ _ Hn Hd Hs Hb). set_solver.
  - destruct (time.Before (modTime node) (cutoffOf bt now)) eqn:Hb; cbn.
    + case_bool_decide as Hr.
      * apply (foldl_visit_unlinked _ _ _ _ _ (listing_entry _ _ _ Hn)).
        unfold unlinked. cbn. by rewrite Hd, Hn, Hs, Hr.
      * rewrite foldl_visit_kept; [done|]. intros e He Hname.
        unfold unlinked. rewrite Hname, Hn, Hs.
        destruct (removeErr node); [by destruct (os.IsDir e)|done].
    + rewrite foldl_visit_kept; [done|]. intros e He Hname.
      unfold unlinked. rewrite Hname, Hn, Hs, Hb.
      by destruct (os.IsDir e), (removeErr node).
Qed.

(** The line logging a removal stands for an entry the loop unlinked. *)
Lemma removed_event_iff bt cutoff m name :
  EvLog (Removed (pathOf bt name)) ∈ flat_map (entryEvents bt cutoff m) (os.listing m) ↔
  ∃ node, m !! name = Some node ∧
          unlinked cutoff m (os.mkDirEntry name (isDir node)) = true.
Proof.
  rewrite elem_of_flat_map. split.
  - intros (e & He & Hev).
    pose proof He as He'. apply elem_of_listing in He' as (node & Hm & Hd).
    unfold entryEvents in Hev. rewrite Hm in Hev.
    destruct (os.IsDir e) eqn:Hdir; [by apply elem_of_nil in Hev|].
    apply elem_of_cons in Hev as [Hev|Hev]; [done|].
    destruct (statErr node) eqn:Hs; [by apply elem_of_nil in Hev|].
    destruct (time.Before (modTime node) cutoff) eqn:Hb; [|by apply elem_of_nil in Hev].
    apply elem_of_cons in Hev as [Hev|Hev]; [done|].
    apply elem_of_cons in Hev as [Hev|Hev]; [|by apply elem_of_nil in Hev].
    destruct (removeErr node) eqn:Hr; [done|].
    injection Hev as Hev. apply filepath_Join_inj in Hev. subst name.
    exists node. split; [done|]. unfold unlinked. cbn.
    by rewrite <- Hd, Hm, Hs, Hr.
  - intros (node & Hm & Hu). exists (os.mkDirEntry name (isDir node)).
    split; [by apply listing_entry|].
    unfold unlinked in Hu. unfold entryEvents. cbn in *. rewrite Hm in *.
    destruct (isDir node); [done|].
    destruct (statErr node); [done|]. destruct (removeErr node); [done|].
    cbn in Hu. rewrite Hu. set_solver.
Qed.



(** X8: an entry the sweep cannot inspect is passed over in silence.  When
    [Info] fails for an entry that is no directory, the entry stays as it
    is whatever its age, no removal is attempted, and no log line names
    it. *)
Theorem sweep_passes_over_what_it_cannot_inspect
    (bt : BackupTool) (now : time.Time) (w : World) (name : string) (node : Node)
    (e : error) :
  files w !! name = Some node → isDir node = false → statErr node = Some e →
  let w' := (cleanupOldBackups bt now None w).1 in
  files w' !! name = Some node ∧
  EvLstat (pathOf bt name) ∈ since w w' ∧
  (EvRemove (pathOf bt name) ∉ since w w') ∧
  (EvLog (Removed (pathOf bt name)) ∉ since w w') ∧
  (∀ err, EvLog (RemoveFailed (pathOf bt name) err) ∉ since w w').
Proof.
  intros Hn Hd Hs. cbv zeta.
  pose proof (files_lookup_Some _ _ _ Hn) as Hm.
  rewrite (cleanup_since bt now w _ Hm), (cleanup_files bt now w _ Hm).
  assert (Hkept : foldl (visit (cutoffOf bt now) (files w)) (files w)
                    (os.listing (files w)) !! name = Some node).
  { rewrite foldl_visit_kept; [done|]. intros e' He' Hname. unfold unlinked.
    rewrite Hname, Hn, Hs. by destruct (os.IsDir e'). }
  split; [done|]. split; [|split; [|split]].
  - right. apply elem_of_flat_map. exists (os.mkDirEntry name (isDir node)).
    split; [by apply listing_entry|]. unfold entryEvents. cbn.
    rewrite Hd. left.
  - intros H. apply elem_of_cons in H as [H|H]; [done|].
    apply remove_event_inv in H as (node' & Hn' & _ & Hs' & _). congruence.
  - intros H. apply elem_of_cons in H as [H|H]; [done|].
    apply removed_event_iff in H as (node' & Hn' & Hu).
    unfold unlinked in Hu. cbn in Hu. rewrite Hn' in Hu.
    assert (node' = node) as -> by congruence. rewrite Hs in Hu.
    by destruct (isDir node).
  - intros err H. apply elem_of_cons in H as [H|H]; [done|].
    apply elem_of_flat_map in H as (e' & He' & Hev).
    apply elem_of_listing in He' as (node' & Hn' & Hd').
    unfold entryEvents in Hev. rewrite Hn' in Hev.
    destruct (os.IsDir e'); [by apply elem_of_nil in Hev|].
    apply elem_of_cons in Hev as [Hev|Hev]; [done|].
    destruct (statErr node') eqn:Hs'; [by apply elem_of_nil in Hev|].
    destruct (time.Before _ _); [|by apply elem_of_nil in Hev].
    apply elem_of_cons in Hev as [Hev|Hev]; [done|].
    apply elem_of_cons in Hev as [Hev|Hev]; [|by apply elem_of_nil in Hev].
    destruct (removeErr node'); [|done].
    injection Hev as Hev _. apply filepath_Join_inj in Hev. subst name.
    congruence.
Qed.

Lemma sweep_passes_over_what_it_cannot_inspect_witness :
  (files staleWorld !! "gone.dump" = Some stale ∧
   isDir stale = false ∧ statErr stale = Some "stale file handle") ∧
  files (cleanupOldBackups scenario.bt scenario.now None staleWorld).1 !! "gone.dump"
  = Some stale.
Proof.
  split; [by repeat split|].
  destruct (sweep_passes_over_what_it_cannot_inspect scenario.bt scenario.now
              staleWorld "gone.dump" stale "stale file handle"
              eq_refl eq_refl eq_refl) as [H _].
  exact H.
Defined.

(** X9: the retention window.  For a retention of [r] days (negative ones
    included) such that now and the instant [r] times 24 hours before it
    are in range, so that Go's date arithmetic does not wrap around, in a
    location whose offsets differ by less than a day, an entry that is no
    directory and can be inspected gets its removal attempted when it was
    modified [r + 1] periods of 24 hours ago or earlier, and is kept, with
    no removal attempted, when it was modified [r - 1] periods of 24 hours
    ago or later. *)
Theorem sweep_window_for_any_retention
    (bt : BackupTool) (now : time.Time) (w : World) (name : string) (node : Node) :
  files w !! name = Some node → isDir node = false → statErr node = None →
  calendar.wf now → calendar.reach now 0 →
  calendar.reach now (- Retention (Backup (config bt))) →
  calendar.narrow (time.loc now) →
  let r := Retention (Backup (config bt)) in
  let w' := (cleanupOldBackups bt now None w).1 in
  (time.unixSec (modTime node) <= time.unixSec now - 86400 * (r + 1) →
   EvRemove (pathOf bt name) ∈ since w w') ∧
  (time.unixSec now - 86400 * (r - 1) <= time.unixSec (modTime node) →
   files w' !! name = Some node ∧ (EvRemove (pathOf bt name) ∉ since w w')).
Proof.
  intros Hn Hd Hs Hwf Hnow Hthen Hnarrow. cbv zeta.
  pose proof (cutoff_within_a_day bt now Hwf Hnow Hthen Hnarrow) as Hc.
  destruct (entry_fate bt now w name node Hn Hd Hs) as [Hev Hfile].
  split.
  - intros Hold. apply Hev. apply Before_sec_lt. lia.
  - intros Hnew.
    assert (Hb : time.Before (modTime node) (cutoffOf bt now) = false)
      by (apply Before_sec_gt; lia).
    rewrite Hfile, Hb. split; [done|]. rewrite Hev, Hb. done.
Qed.

Lemma sweep_window_for_any_retention_witness :
  (files scenario.world !! "shop_6.dump" = Some (scenario.aged 6 false None) ∧
   calendar.wf scenario.now ∧ calendar.reach scenario.now 0 ∧
   calendar.reach scenario.now (- Retention (Backup (config scenario.bt))) ∧
   time.unixSec scenario.now - 86400 * (Retention (Backup (config scenario.bt)) - 1)
     <= time.unixSec (modTime (scenario.aged 6 false None))) ∧
  files (cleanupOldBackups scenario.bt scenario.now None scenario.world).1
    !! "shop_6.dump" = Some (scenario.aged 6 false None).
Proof.
  assert (Hwf : calendar.wf scenario.now) by (by vm_compute).
  assert (Hnow : calendar.reach scenario.now 0) by (apply scenario_reach; lia).
  assert (Hthen : calendar.reach scenario.now
                    (- Retention (Backup (config scenario.bt))))
    by (apply scenario_reach; by vm_compute).
  assert (Hnew : time.unixSec scenario.now
                 - 86400 * (Retention (Backup (config scenario.bt)) - 1)
                 <= time.unixSec (modTime (scenario.aged 6 false None)))
    by (by vm_compute).
  split;
    [split_and!;
       reflexivity || exact Hnow || exact Hthen || exact Hwf || exact Hnew|].
  apply (sweep_window_for_any_retention scenario.bt scenario.now scenario.world
           "shop_6.dump" (scenario.aged 6 false None) eq_refl eq_refl eq_refl
           Hwf Hnow Hthen UTC_narrow); exact Hnew.
Defined.

(** ** More on one cycle ([performBackup]) *)




Lemma since_ran bt inp w : since w (ran bt inp w) = dumpEvents bt inp (environ w).
Proof.
  apply since_trace. unfold ran, CombinedOutput. cbn.
  destruct (artifact (execRes inp)); cbn; by rewrite <- !app_assoc.
Qed.

Lemma since_trans w1 w2 w3 l1 l2 :
  trace w2 = trace w1 ++ l1 → trace w3 = trace w2 ++ l2 →
  since w1 w3 = l1 ++ l2.
Proof. intros H1 H2. apply since_trace. by rewrite H2, H1, <- app_assoc. Qed.








(** ** The password and the rest of a run *)

Lemma agree_refl w : agree w w.
Proof. by repeat split. Qed.

Lemma agree_emit w1 w2 e1 e2 :
  agree w1 w2 → scrub e1 = scrub e2 → agree (emit e1 w1) (emit e2 w2).
Proof.
  intros (He & Ho & Ht) Hs. repeat split; cbn; try done.
  by rewrite !fmap_app, Ht; cbn; rewrite Hs.
Qed.

Lemma agree_files w1 w2 : agree w1 w2 → files w1 = files w2.
Proof. intros (_ & Ho & _). unfold files. by rewrite Ho. Qed.

Lemma agree_outdir w1 w2 f :
  agree w1 w2 →
  agree (mkWorld (environ w1) (f (outdir w1)) (trace w1))
        (mkWorld (environ w2) (f (outdir w2)) (trace w2)).
Proof. intros (He & Ho & Ht). repeat split; cbn; congruence. Qed.

Lemma sweep_agree pw bt cutoff entries : ∀ w1 w2,
  agree w1 w2 →
  agree (sweep (withPassword pw bt) cutoff entries w1) (sweep bt cutoff entries w2).
Proof.
  induction entries as [|e es IH]; intros w1 w2 Hag; [done|].
  cbn [sweep]. destruct (os.IsDir e); [by apply IH|].
  change (OutputDir (Backup (config (withPassword pw bt))))
    with (OutputDir (Backup (config bt))).
  unfold os.Info.
  set (ev := EvLstat _).
  pose proof (agree_emit _ _ ev ev Hag eq_refl) as Hag1.
  rewrite (agree_files _ _ Hag1).
  destruct (files (emit ev w2) !! os.Name_ e) as [node|] eqn:Hn; [|by apply IH].
  destruct (statErr node); [by apply IH|]. cbn [os.ModTime].
  destruct (time.Before (modTime node) cutoff); [|by apply IH].
  unfold os.Remove.
  set (ev2 := EvRemove _).
  pose proof (agree_emit _ _ ev2 ev2 Hag1 eq_refl) as Hag2.
  rewrite (agree_files _ _ Hag2), files_emit, Hn.
  destruct (removeErr node) as [err|].
  - apply IH. by apply agree_emit.
  - apply IH. apply agree_emit; [|done].
    by apply (agree_outdir _ _ (fmap (delete (os.Name_ e)))).
Qed.

Lemma cleanup_agree pw bt now fail w1 w2 :
  agree w1 w2 →
  agree (cleanupOldBackups (withPassword pw bt) now fail w1).1
        (cleanupOldBackups bt now fail w2).1 ∧
  (cleanupOldBackups (withPassword pw bt) now fail w1).2 =
  (cleanupOldBackups bt now fail w2).2.
Proof.
  intros Hag. unfold cleanupOldBackups, os.ReadDir.
  change (OutputDir (Backup (config (withPassword pw bt))))
    with (OutputDir (Backup (config bt))).
  change (Retention (Backup (config (withPassword pw bt))))
    with (Retention (Backup (config bt))).
  set (ev := EvReadDir _).
  pose proof (agree_emit _ _ ev ev Hag eq_refl) as Hag1.
  assert (Ho : outdir (emit ev w1) = outdir (emit ev w2)) by apply Hag1.
  rewrite Ho.
  destruct (outdir (emit ev w2)) as [m|]; [destruct fail|]; cbn [fst snd].
  - by split.
  - split; [|done]. by apply sweep_agree.
  - by split.
Qed.

Lemma performBackup_agree pw bt inp w1 w2 :
  agree w1 w2 →
  agree (performBackup (withPassword pw bt) inp w1).1 (performBackup bt inp w2).1 ∧
  (performBackup (withPassword pw bt) inp w1).2 = (performBackup bt inp w2).2.
Proof.
  intros Hag. unfold performBackup, CombinedOutput, logger_Print.
  change (filename (withPassword pw bt) (nowName inp)) with (filename bt (nowName inp)).
  change (OutputDir (Backup (config (withPassword pw bt))))
    with (OutputDir (Backup (config bt))).
  change (buildPgDumpCommand (withPassword pw bt)) with (buildPgDumpCommand bt).
  cbn [environ emit].
  match goal with
  | |- context [emit (EvRun ?c1) (emit (EvLog (Running ?s1)) (emit ?e0 w1))] =>
      set (cmd1 := c1); set (w1' := emit (EvRun c1) (emit (EvLog (Running s1)) (emit e0 w1)))
  end.
  match goal with
  | |- context [emit (EvRun ?c2) (emit (EvLog (Running ?s2)) (emit ?e0 w2))] =>
      set (cmd2 := c2); set (w2' := emit (EvRun c2) (emit (EvLog (Running s2)) (emit e0 w2)))
  end.
  assert (Hag' : agree w1' w2').
  { subst w1' w2'. apply agree_emit; [|done].
    apply agree_emit; [|done]. by apply agree_emit. }
  assert (Hag'' : ∀ a : option Node,
            agree
              match a with
              | Some node =>
                  mkWorld (environ w1')
                    (insert (filename bt (nowName inp)) node <$> outdir w1') (trace w1')
              | None => w1'
              end
              match a with
              | Some node =>
                  mkWorld (environ w2')
                    (insert (filename bt (nowName inp)) node <$> outdir w2') (trace w2')
              | None => w2'
              end).
  { intros [node|]; [|done].
    by apply (agree_outdir _ _ (fmap (insert (filename bt (nowName inp)) node))). }
  specialize (Hag'' (artifact (execRes inp))).
  match type of Hag'' with
  | agree ?a ?b => set (w1'' := a) in *; set (w2'' := b) in *
  end.
  destruct (exitErr (execRes inp)); [done|].
  set (c1 := EvLog (BackupCompleted _)).
  pose proof (agree_emit _ _ c1 c1 Hag'' eq_refl) as Hag3.
  destruct (cleanup_agree pw bt (nowSweep inp) (readDirErr inp) _ _ Hag3) as [Hag4 Herr].
  destruct (cleanupOldBackups (withPassword pw bt) _ _ _) as [w14 err1].
  destruct (cleanupOldBackups bt _ _ _) as [w24 err2].
  cbn [fst snd] in *. subst err2.
  destruct err1; cbn [fst snd]; split; try done. by apply agree_emit.
Qed.

Lemma tickLoop_agree pw bt ticks : ∀ w1 w2,
  agree w1 w2 → agree (tickLoop (withPassword pw bt) ticks w1) (tickLoop bt ticks w2).
Proof.
  induction ticks as [|inp rest IH]; intros w1 w2 Hag; [done|].
  cbn [tickLoop].
  destruct (performBackup_agree pw bt inp w1 w2 Hag) as [Hag1 Herr].
  destruct (performBackup (withPassword pw bt) inp w1) as [w1' err1].
  destruct (performBackup bt inp w2) as [w2' err2].
  cbn [fst snd] in *. subst err2. apply IH.
  destruct err1; [by apply agree_emit|done].
Qed.

(** X12: the password reaches nothing but the environment of the child
    processes.  Two runs of [Start] that differ in the configured password
    only end the same way, leave the same output directory and the same
    process environment, and record the same events (the same calls, the
    same log lines, the same commands and argument lists) once the
    environments handed to the children are set aside. *)
Theorem password_reaches_only_the_child_environment
    (bt : BackupTool) (pw : string) (mkdirFail : option error) (first : CycleInput)
    (ticks : list CycleInput) (w : World) :
  let run1 := Start (withPassword pw bt) mkdirFail first ticks w in
  let run2 := Start bt mkdirFail first ticks w in
  run1.2 = run2.2 ∧
  outdir run1.1 = outdir run2.1 ∧
  environ run1.1 = environ run2.1 ∧
  scrub <$> trace run1.1 = scrub <$> trace run2.1.
Proof.
  cbv zeta.
  enough (H : agree (Start (withPassword pw bt) mkdirFail first ticks w).1
                    (Start bt mkdirFail first ticks w).1 ∧
              (Start (withPassword pw bt) mkdirFail first ticks w).2 =
              (Start bt mkdirFail first ticks w).2).
  { destruct H as [(He & Ho & Ht) Hres]. done. }
  unfold Start, os.MkdirAll, logger_Print.
  change (OutputDir (Backup (config (withPassword pw bt))))
    with (OutputDir (Backup (config bt))).
  change (Frequency (Backup (config (withPassword pw bt))))
    with (Frequency (Backup (config bt))).
  destruct mkdirFail as [e|]; [by split; [apply agree_refl|]|].
  set (w0 := mkWorld _ _ _).
  destruct (performBackup_agree pw bt first w0 w0 (agree_refl _)) as [Hag Herr].
  destruct (performBackup (withPassword pw bt) first w0) as [w1 err1].
  destruct (performBackup bt first w0) as [w2 err2].
  cbn [fst snd] in *. subst err2.
  assert (Hag' : agree
            match err1 with Some err => emit (EvLog (InitialBackupFailed err)) w1 | None => w1 end
            match err1 with Some err => emit (EvLog (InitialBackupFailed err)) w2 | None => w2 end).
  { destruct err1; [by apply agree_emit|done]. }
  destruct (Frequency (Backup (config bt)) <=? 0); cbn [fst snd]; [done|].
  split; [|done]. apply tickLoop_agree. by apply agree_emit.
Qed.

(** ** The output directory over a whole run ([Start]) *)











(** ** More on file names ([performBackup]) *)

(** X14: a name stands for one second of the local clock.  With local
    years of four digits, two instants get the same file name from the same
    tool exactly when the local clock reads the same second at both: in a
    location with a fixed offset names are unique to the second, and where
    the clock is set back the names of the repeated hour are used twice
    (New York, 2024-11-03: 05:30 UTC and 06:30 UTC both read 01:30). *)
Theorem names_are_per_local_second (bt : BackupTool) (t1 t2 : time.Time) :
  0 <= Year t1 <= 9999 → 0 <= Year t2 <= 9999 →
  (filename bt t1 = filename bt t2 ↔ time.abs t1 = time.abs t2).
Proof.
  intros Hy1 Hy2. split.
  - intros Heq.
    pose proof (compare_refl_string (filename bt t2)) as Hrefl.
    destruct (Z.lt_trichotomy (time.abs t1) (time.abs t2)) as [Hlt|[Habs|Hgt]];
      [|done|].
    + pose proof (filename_compare_abs bt t1 t2 ltac:(lia) ltac:(lia) Hlt) as Hc.
      rewrite Heq in Hc. congruence.
    + pose proof (filename_compare_abs bt t2 t1 ltac:(lia) ltac:(lia) Hgt) as Hc.
      rewrite Heq in Hc. congruence.
  - intros Habs. unfold filename, timefmt.Format, time.Date_of, time.Clock.
    by rewrite Habs.
Qed.

Lemma names_are_per_local_second_witness :
  (0 <= Year (time.mkTime 1730611800 0 New_York) <= 9999 ∧
   0 <= Year (time.mkTime 1730615400 0 New_York) <= 9999) ∧
  filename scenario.bt (time.mkTime 1730611800 0 New_York) =
  filename scenario.bt (time.mkTime 1730615400 0 New_York).
Proof.
  assert (H1 : 0 <= Year (time.mkTime 1730611800 0 New_York) <= 9999)
    by (by vm_compute).
  assert (H2 : 0 <= Year (time.mkTime 1730615400 0 New_York) <= 9999)
    by (by vm_compute).
  split; [by split|].
  by apply (names_are_per_local_second scenario.bt _ _ H1 H2).
Defined.

(** ** Retention and what is kept ([cleanupOldBackups]) *)

(** A longer retention gives an earlier cutoff, also across changes of
    the offset. *)
Lemma cutoff_mono bt r1 r2 now t :
  calendar.wf now → calendar.reach now 0 →
  calendar.reach now (- r1) → calendar.reach now (- r2) →
  calendar.narrow (time.loc now) → r1 <= r2 →
  time.Before t (cutoffOf (withRetention r2 bt) now) = true →
  time.Before t (cutoffOf (withRetention r1 bt) now) = true.
Proof.
  intros Hwf Hnow H1 H2 Hnarrow Hle.
  destruct (decide (r1 = r2)) as [->|Hne]; [done|].
  pose proof (reach_days _ _ Hnow H1). pose proof (reach_days _ _ Hnow H2).
  unfold cutoffOf. cbn [withRetention config Backup Retention].
  rewrite !neg_int_small by lia.
  destruct (gregorian.AddDate_days now (- r1) Hwf Hnow H1 Hnarrow)
    as (o1 & Ho1 & ->).
  destruct (gregorian.AddDate_days now (- r2) Hwf Hnow H2 Hnarrow)
    as (o2 & Ho2 & ->).
  pose proof (Hnarrow _ _ Ho1 Ho2). intros Hb. apply Before_sec_lt.
  unfold time.Before in Hb. cbn in *.
  apply orb_true_iff in Hb as [Hb|Hb]; [apply Z.ltb_lt in Hb; lia|].
  apply andb_true_iff in Hb as [Hb _]. apply Z.eqb_eq in Hb. lia.
Qed.

Lemma unlinked_mono c1 c2 m e :
  (∀ t, time.Before t c2 = true → time.Before t c1 = true) →
  unlinked c2 m e = true → unlinked c1 m e = true.
Proof.
  intros Hmono. unfold unlinked.
  destruct (os.IsDir e); [done|]. destruct (m !! os.Name_ e) as [node|]; [|done].
  destruct (statErr node), (removeErr node); try done. apply Hmono.
Qed.

(** X15: a longer retention keeps more, as long as Go's date arithmetic does
    not wrap around.  For two retentions such that now and the instants
    either retention times 24 hours before it are in range, in a location
    whose offsets differ by less than a day, a sweep over the same
    directory at the same instant under the longer retention leaves every
    entry that the sweep under the shorter one leaves, and attempts no
    removal that the shorter one does not attempt. *)
Theorem longer_retention_keeps_more
    (bt : BackupTool) (r1 r2 : Z) (now : time.Time) (w : World) :
  calendar.wf now → calendar.reach now 0 →
  calendar.reach now (- r1) → calendar.reach now (- r2) →
  calendar.narrow (time.loc now) → r1 <= r2 →
  let short := (cleanupOldBackups (withRetention r1 bt) now None w).1 in
  let long := (cleanupOldBackups (withRetention r2 bt) now None w).1 in
  files short ⊆ files long ∧
  (∀ name, EvRemove (pathOf bt name) ∈ since w long →
           EvRemove (pathOf bt name) ∈ since w short).
Proof.
  intros Hwf Hnow H1 H2 Hnarrow Hle. cbv zeta.
  pose proof (λ t, cutoff_mono bt r1 r2 now t Hwf Hnow H1 H2 Hnarrow Hle)
    as Hmono.
  destruct (cleanup_cases (withRetention r1 bt) now None w)
    as [(E1 & _ & [[? [=]]|Hnone])|(_ & Ho & E1)];
  destruct (cleanup_cases (withRetention r2 bt) now None w)
    as [(E2 & _ & [[? [=]]|Hnone'])|(_ & Ho' & E2)]; try congruence.
  { by rewrite E1, E2. }
  rewrite E1, E2. cbn [fst]. rewrite !files_mk, !since_app.
  set (m := files w) in *.
  set (c1 := cutoffOf (withRetention r1 bt) now) in *.
  set (c2 := cutoffOf (withRetention r2 bt) now) in *.
  split.
  - apply map_subseteq_spec. intros name node Hl.
    assert (Hm : m !! name = Some node).
    { eapply lookup_weaken; [exact Hl|apply foldl_visit_subseteq]. }
    rewrite foldl_visit_kept; [done|]. intros e He Hname.
    rewrite (entry_unique _ _ _ _ He Hname Hm).
    destruct (unlinked c2 m (os.mkDirEntry name (isDir node))) eqn:Hu; [|done].
    apply (unlinked_mono c1) in Hu; [|done].
    pose proof (foldl_visit_unlinked c1 m (os.listing m) m _
                  (listing_entry _ _ _ Hm) Hu) as Hgone.
    cbn in Hgone. congruence.
  - intros name Hin. apply elem_of_cons in Hin as [Hin|Hin]; [done|].
    change (OutputDir (Backup (config (withRetention r1 bt))))
      with (OutputDir (Backup (config bt))).
    change (pathOf bt name) with (pathOf (withRetention r2 bt) name) in Hin.
    apply remove_event_inv in Hin as (node & Hm & Hd & Hs & Hb).
    right. change (pathOf bt name) with (pathOf (withRetention r1 bt) name).
    apply (remove_event_intro _ _ _ _ _ Hm Hd Hs (Hmono _ Hb)).
    right. left.
Qed.

Lemma longer_retention_keeps_more_witness :
  (calendar.wf scenario.now ∧ calendar.reach scenario.now 0 ∧
   calendar.reach scenario.now (-1) ∧ calendar.reach scenario.now (-7) ∧
   calendar.narrow (time.loc scenario.now)) ∧
  files (cleanupOldBackups (withRetention 1 scenario.bt) scenario.now None
           scenario.world).1 ⊆
  files (cleanupOldBackups (withRetention 7 scenario.bt) scenario.now None
           scenario.world).1.
Proof.
  assert (Hwf : calendar.wf scenario.now) by (by vm_compute).
  assert (Hnow : calendar.reach scenario.now 0) by (apply scenario_reach; lia).
  assert (H1 : calendar.reach scenario.now (-1)) by (apply scenario_reach; lia).
  assert (H7 : calendar.reach scenario.now (-7)) by (apply scenario_reach; lia).
  split; [split_and!; [exact Hwf|exact Hnow|exact H1|exact H7|exact UTC_narrow]|].
  destruct (longer_retention_keeps_more scenario.bt 1 7 scenario.now scenario.world
              Hwf Hnow H1 H7 UTC_narrow ltac:(lia)) as [H _].
  exact H.
Defined.
